(** * Complex permeability from VNA impedance measurements

    A shallow embedding of [calculate_permeability] from
    [scripts/permeability_calculator.py], together with the properties of
    the function that its specification states.

    The Python function is a sequence of whole-array NumPy operations.  It
    is embedded line by line: one-dimensional arrays are lists, every
    NumPy operation on two arrays goes through NumPy's broadcasting (which
    raises [ValueError] on incompatible shapes), and the scalar arithmetic
    is kept abstract in a class [Scalar], which is then instantiated
    twice:

    - [binary64]: IEEE-754 double precision, the arithmetic NumPy runs
      ([float64] and [complex128]), on Rocq's primitive floats;
    - [reals]: the real numbers, the exact arithmetic in which the
      formulas of the specification are written.

    Statements about exact zeros, NaN and infinities are made on
    [binary64]; algebraic laws of the formulas are made on [reals].  For
    determinism and the absence of side effects the same program is also
    given on a heap of array objects, [calculate_permeability_in_memory],
    and related to the first. *)

From Stdlib Require Import ZArith List Bool Lia Floats Reals Lra.
Import ListNotations.

Set Warnings "-inexact-float".

(** ** Python exceptions and the result of a call *)

Inductive exn : Type :=
| ValueError      (* operands could not be broadcast together *)
| OverflowError   (* int too large to convert to float *)
| TypeError.      (* an object of the wrong kind was passed *)

Inductive result (A : Type) : Type :=
| Ok (a : A)
| Raise (e : exn).

Arguments Ok {A} a.
Arguments Raise {A} e.

Definition bind {A B : Type} (r : result A) (k : A -> result B) : result B :=
  match r with
  | Ok a => k a
  | Raise e => Raise e
  end.

Notation "x <- e ;; k" := (bind e (fun x => k))
  (at level 61, e at next level, right associativity).

(** ** One-dimensional arrays and broadcasting *)

Fixpoint zip_with {A B C : Type} (f : A -> B -> C) (xs : list A) (ys : list B)
  : list C :=
  match xs, ys with
  | x :: xs', y :: ys' => f x y :: zip_with f xs' ys'
  | _, _ => []
  end.

(** An elementwise binary operation on two 1-D arrays.  Shapes [(n,)] and
    [(n,)] combine index by index; a shape [(1,)] is stretched to the
    other; anything else raises [ValueError]. *)
Definition broadcast2 {A B C : Type} (f : A -> B -> C) (xs : list A) (ys : list B)
  : result (list C) :=
  if Nat.eqb (length xs) (length ys) then Ok (zip_with f xs ys)
  else match xs, ys with
       | [x], _ => Ok (map (f x) ys)
       | _, [y] => Ok (map (fun x => f x y) xs)
       | _, _ => Raise ValueError
       end.

(** [np.where(condition, x, y)] with an array [condition], an array [x]
    and a scalar [y]. *)
Definition np_where {A : Type} (condition : list bool) (x : list A) (y : A)
  : result (list A) :=
  broadcast2 (fun (c : bool) (v : A) => if c then v else y) condition x.

(** ** Scalar arithmetic *)

Class Scalar (F : Type) : Type := {
  fadd : F -> F -> F;
  fsub : F -> F -> F;
  fmul : F -> F -> F;
  fdiv : F -> F -> F;
  nonzero : F -> bool;     (* [x != 0] *)
  of_int : Z -> F;         (* a Python int used as a float operand *)
  int_fits : Z -> bool;    (* whether that conversion succeeds *)
  np_pi : F;               (* [np.pi] *)
  lit_1e_7 : F             (* the literal [1e-7] *)
}.

Declare Scope scalar_scope.
Delimit Scope scalar_scope with sc.
Infix "+." := fadd (at level 50, left associativity) : scalar_scope.
Infix "-." := fsub (at level 50, left associativity) : scalar_scope.
Infix "*." := fmul (at level 40, left associativity) : scalar_scope.
Infix "/." := fdiv (at level 40, left associativity) : scalar_scope.

(** Converting a Python int to a float raises [OverflowError] when the
    int is out of the float range. *)
Definition int_to_float {F : Type} `{Scalar F} (n : Z) : result F :=
  if int_fits n then Ok (of_int n) else Raise OverflowError.

(** ** Complex numbers ([complex128] over the scalar type) *)

Record complex (F : Type) : Type := Complex { re : F; im : F }.

Arguments Complex {F} re im.
Arguments re {F} c.
Arguments im {F} c.

Section ComplexOps.
Context {F : Type} `{Scalar F}.
Local Open Scope scalar_scope.

(** A real array element cast to complex. *)
Definition of_real (x : F) : complex F := Complex x (of_int 0).

(** The Python literal [1j]. *)
Definition imag_unit : complex F := Complex (of_int 0) (of_int 1).

Definition cmul (a b : complex F) : complex F :=
  Complex (re a *. re b -. im a *. im b) (re a *. im b +. im a *. re b).

Definition csub (a b : complex F) : complex F :=
  Complex (re a -. re b) (im a -. im b).
End ComplexOps.

(** ** The calculator *)

(** The [sample_dimensions] dictionary: its four entries. *)
Record dimensions (F : Type) : Type := Dimensions {
  outer_diameter : F;
  inner_diameter : F;
  height : F;
  turns : Z
}.

Arguments Dimensions {F} outer_diameter inner_diameter height turns.
Arguments outer_diameter {F} d.
Arguments inner_diameter {F} d.
Arguments height {F} d.
Arguments turns {F} d.

Section Calculator.
Context {F : Type} `{Scalar F}.
Local Open Scope scalar_scope.

(** The geometric constants of lines 52-54 and the constant divisor of
    line 69, named so that statements can refer to them. *)
Definition mean_diameter (d : dimensions F) : F :=
  (outer_diameter d +. inner_diameter d) /. of_int 2.

Definition cross_section_area (d : dimensions F) : F :=
  height d *. (outer_diameter d -. inner_diameter d) /. of_int 2.

Definition mean_length (d : dimensions F) : F :=
  np_pi *. mean_diameter d.

Definition mu_0 : F := of_int 4 *. np_pi *. lit_1e_7.

Definition two_pi : F := of_int 2 *. np_pi.

Definition calculate_permeability
    (impedance : list (complex F)) (frequency : list F)
    (sample_dimensions : dimensions F)
  : result (list (complex F) * list F * list F) :=
  let turns := turns sample_dimensions in
  let cross_section_area := cross_section_area sample_dimensions in
  let mean_length := mean_length sample_dimensions in
  let omega := map (fun f => two_pi *. f) frequency in
  quotient <- broadcast2 fdiv (map im impedance) omega ;;
  inductance <- np_where (map nonzero omega) quotient (of_int 0) ;;
  let numerator := map (fun l => l *. mean_length) inductance in
  turns_squared <- int_to_float (turns ^ 2) ;;
  let divisor := mu_0 *. turns_squared *. cross_section_area in
  let permeability := map (fun n => n /. divisor) numerator in
  let resistance := map re impedance in
  denominator <- broadcast2 fmul omega inductance ;;
  ratio <- broadcast2 fdiv resistance denominator ;;
  loss_factor <- np_where (map nonzero denominator) ratio (of_int 0) ;;
  let mu_real := permeability in
  mu_imag <- broadcast2 fmul mu_real loss_factor ;;
  complex_permeability <-
    broadcast2 csub (map of_real mu_real)
               (map (fun m => cmul imag_unit (of_real m)) mu_imag) ;;
  Ok (complex_permeability, mu_real, mu_imag).
End Calculator.

(** ** The two arithmetics *)

(** IEEE-754 binary64.  [of_int] rounds to nearest even, as CPython's
    conversion does, and the conversion fails from [2^1024 - 2^970] on,
    the first integer that rounds past the largest float. *)
#[export] Instance binary64 : Scalar float := {
  fadd := PrimFloat.add;
  fsub := PrimFloat.sub;
  fmul := PrimFloat.mul;
  fdiv := PrimFloat.div;
  nonzero := fun x => negb (PrimFloat.eqb x 0%float);
  of_int := fun n => SF2Prim (binary_normalize prec emax n 0 false);
  int_fits := fun n => (Z.abs n <? 2 ^ 1024 - 2 ^ 970)%Z;
  np_pi := 0x1.921fb54442d18p+1%float;
  lit_1e_7 := 0x1.ad7f29abcaf48p-24%float
}.

(** The real numbers. *)
#[export] Instance reals : Scalar R := {
  fadd := Rplus;
  fsub := Rminus;
  fmul := Rmult;
  fdiv := Rdiv;
  nonzero := fun x => if Req_dec_T x 0%R then false else true;
  of_int := IZR;
  int_fits := fun _ => true;
  np_pi := PI;
  lit_1e_7 := (/ 10000000)%R
}.


(** ** Reading the returned arrays *)

Section Returned.
Context {F : Type}.

(** [complex_permeability[i]], [mu_real[i]] and [mu_imag[i]] of a call:
    [None] when the call raised or the index is out of range. *)
Definition returned_complex
    (r : result (list (complex F) * list F * list F)) (i : nat)
  : option (complex F) :=
  match r with
  | Ok (c, _, _) => nth_error c i
  | Raise _ => None
  end.

Definition returned_mu_real
    (r : result (list (complex F) * list F * list F)) (i : nat) : option F :=
  match r with
  | Ok (_, m, _) => nth_error m i
  | Raise _ => None
  end.

Definition returned_mu_imag
    (r : result (list (complex F) * list F * list F)) (i : nat) : option F :=
  match r with
  | Ok (_, _, m) => nth_error m i
  | Raise _ => None
  end.
End Returned.

(** [k * impedance] for a real scalar [k]: NumPy casts [k] to complex and
    multiplies elementwise. *)
Definition scale_impedance {F : Type} `{Scalar F} (k : F) (impedance : list (complex F))
  : list (complex F) :=
  map (fun z => cmul (of_real k) z) impedance.

(** ** Arrays as objects in memory

    For the statements about mutation the arrays are objects in a heap.
    An address is an index into the heap.  An array either owns its data
    or is a view of the real or imaginary parts of a complex array, which
    is what [np.real] and [np.imag] return for a complex argument: a view
    shares the memory of its base, so reading it reads the base.  Every
    arithmetic operation reads its operands and allocates its result;
    the function contains no operation that writes into an existing
    array.  [np.real] of a real array returns that array itself. *)

Inductive ndarray (F : Type) : Type :=
| Float64 (data : list F)
| Complex128 (data : list (complex F))
| Boolean (data : list bool)
| RealPartOf (base : nat)
| ImagPartOf (base : nat).

Arguments Float64 {F} data.
Arguments Complex128 {F} data.
Arguments Boolean {F} data.
Arguments RealPartOf {F} base.
Arguments ImagPartOf {F} base.

Definition heap (F : Type) : Type := list (ndarray F).

Definition action (F A : Type) : Type := heap F -> result (A * heap F).

Section InMemory.
Context {F : Type} `{Scalar F}.
Local Open Scope scalar_scope.

Definition ret {A : Type} (a : A) : action F A := fun h => Ok (a, h).

Definition seq {A B : Type} (m : action F A) (k : A -> action F B) : action F B :=
  fun h =>
    match m h with
    | Ok (a, h') => k a h'
    | Raise e => Raise e
    end.

Definition lift {A : Type} (r : result A) : action F A :=
  fun h =>
    match r with
    | Ok a => Ok (a, h)
    | Raise e => Raise e
    end.

Definition new_array (a : ndarray F) : action F nat :=
  fun h => Ok (length h, h ++ [a]).

Definition complex_view (h : heap F) (p : nat) : option (list (complex F)) :=
  match nth_error h p with
  | Some (Complex128 zs) => Some zs
  | _ => None
  end.

(** The elements of a real array: its own data, or the parts of its
    base as they are now. *)
Definition float_view (h : heap F) (p : nat) : option (list F) :=
  match nth_error h p with
  | Some (Float64 xs) => Some xs
  | Some (RealPartOf b) => option_map (map re) (complex_view h b)
  | Some (ImagPartOf b) => option_map (map im) (complex_view h b)
  | _ => None
  end.

Definition bool_view (h : heap F) (p : nat) : option (list bool) :=
  match nth_error h p with
  | Some (Boolean bs) => Some bs
  | _ => None
  end.

Definition read {A : Type} (view : heap F -> nat -> option A) (p : nat)
  : action F A :=
  fun h =>
    match view h p with
    | Some a => Ok (a, h)
    | None => Raise TypeError
    end.

Notation "x <~ e ;; k" := (seq e (fun x => k))
  (at level 61, e at next level, right associativity).

(** An array combined with a scalar. *)
Definition np_map (g : F -> F) (p : nat) : action F nat :=
  xs <~ read float_view p ;;
  new_array (Float64 (map g xs)).

(** Two arrays combined elementwise. *)
Definition np_zip (g : F -> F -> F) (p q : nat) : action F nat :=
  xs <~ read float_view p ;;
  ys <~ read float_view q ;;
  zs <~ lift (broadcast2 g xs ys) ;;
  new_array (Float64 zs).

Definition np_imag (p : nat) : action F nat :=
  _ <~ read complex_view p ;;
  new_array (ImagPartOf p).

Definition np_real (p : nat) : action F nat :=
  _ <~ read complex_view p ;;
  new_array (RealPartOf p).

Definition np_not_equal_zero (p : nat) : action F nat :=
  xs <~ read float_view p ;;
  new_array (Boolean (map nonzero xs)).

Definition np_where_at (c p : nat) (y : F) : action F nat :=
  bs <~ read bool_view c ;;
  xs <~ read float_view p ;;
  zs <~ lift (np_where bs xs y) ;;
  new_array (Float64 zs).

(** [1j * a] for a real array [a]. *)
Definition np_times_1j (p : nat) : action F nat :=
  xs <~ read float_view p ;;
  new_array (Complex128 (map (fun m => cmul imag_unit (of_real m)) xs)).

(** [a - b] for a real array [a] and a complex array [b]. *)
Definition np_subtract_complex (p q : nat) : action F nat :=
  xs <~ read float_view p ;;
  zs <~ read complex_view q ;;
  ws <~ lift (broadcast2 csub (map of_real xs) zs) ;;
  new_array (Complex128 ws).

(** [calculate_permeability] on addresses.  The operands of each line
    are evaluated in Python's order. *)
Definition calculate_permeability_in_memory
    (impedance frequency : nat) (sample_dimensions : dimensions F)
  : action F (nat * nat * nat) :=
  let turns := turns sample_dimensions in
  let cross_section_area := cross_section_area sample_dimensions in
  let mean_length := mean_length sample_dimensions in
  omega <~ np_map (fun f => two_pi *. f) frequency ;;
  omega_not_zero <~ np_not_equal_zero omega ;;
  reactance <~ np_imag impedance ;;
  quotient <~ np_zip fdiv reactance omega ;;
  inductance <~ np_where_at omega_not_zero quotient (of_int 0) ;;
  numerator <~ np_map (fun l => l *. mean_length) inductance ;;
  turns_squared <~ lift (int_to_float (turns ^ 2)) ;;
  let divisor := mu_0 *. turns_squared *. cross_section_area in
  permeability <~ np_map (fun n => n /. divisor) numerator ;;
  resistance <~ np_real impedance ;;
  denominator <~ np_zip fmul omega inductance ;;
  denominator_not_zero <~ np_not_equal_zero denominator ;;
  ratio <~ np_zip fdiv resistance denominator ;;
  loss_factor <~ np_where_at denominator_not_zero ratio (of_int 0) ;;
  let mu_real := permeability in
  mu_imag <~ np_zip fmul mu_real loss_factor ;;
  rotated <~ np_times_1j mu_imag ;;
  complex_permeability <~ np_subtract_complex mu_real rotated ;;
  ret (complex_permeability, mu_real, mu_imag).

(** The three arrays a call returned, read back from the heap. *)
Definition read_outputs (h : heap F) (p : nat * nat * nat)
  : option (ndarray F) * option (ndarray F) * option (ndarray F) :=
  let '(complex_permeability, mu_real, mu_imag) := p in
  (nth_error h complex_permeability, nth_error h mu_real, nth_error h mu_imag).
End InMemory.

(** ** Inputs used in the examples below *)

Module Examples.
Local Open Scope float_scope.

(** The toroid of the specification's scenario and of [example_usage]:
    20 mm by 10 mm by 5 mm, 10 turns. *)
Definition toroid : dimensions float := Dimensions 20e-3 10e-3 5e-3 10.

(** The scenario: 1 MHz, the reactance of 1 uH, no resistance. *)
Definition scenario_frequency : list float := [1e6].

Definition scenario_impedance : list (complex float) :=
  [Complex 0 (2 * 0x1.921fb54442d18p+1 * 1e6 * 1e-6)].

(** A toroid with no cross section (outer = inner). *)
Definition flat_toroid : dimensions float := Dimensions 10e-3 10e-3 5e-3 10.

(** Two toroids that satisfy [outer > inner > 0], [height > 0] and
    [turns >= 1] at the ends of the float range. *)
Definition huge_toroid : dimensions float := Dimensions 1.5e308 1e308 1 1.

Definition thin_toroid : dimensions float := Dimensions 20e-3 10e-3 1e-320 10.

(** The invariant of the specification's SampleGeometry, on floats. *)
Definition sample_geometry (d : dimensions float) : bool :=
  (inner_diameter d <? outer_diameter d) && (0 <? inner_diameter d)
  && (0 <? height d) && (1 <=? turns d)%Z.
End Examples.

(** ** The per-index reading of the calculator

    The specification describes the calculator element by element (steps
    2 to 9 of its algorithm).  These definitions follow that wording;
    [calculate_permeability_elementwise] below shows that the array
    program computes exactly them at every index. *)

Section Elementwise.
Context {F : Type} `{Scalar F}.
Local Open Scope scalar_scope.

Definition omega_at (f : F) : F := two_pi *. f.

Definition inductance_at (z : complex F) (f : F) : F :=
  if nonzero (omega_at f) then im z /. omega_at f else of_int 0.

Definition divisor_of (d : dimensions F) : F :=
  mu_0 *. of_int (turns d ^ 2) *. cross_section_area d.

Definition mu_real_at (d : dimensions F) (z : complex F) (f : F) : F :=
  inductance_at z f *. mean_length d /. divisor_of d.

Definition loss_factor_at (z : complex F) (f : F) : F :=
  if nonzero (omega_at f *. inductance_at z f)
  then re z /. (omega_at f *. inductance_at z f)
  else of_int 0.

Definition mu_imag_at (d : dimensions F) (z : complex F) (f : F) : F :=
  mu_real_at d z f *. loss_factor_at z f.

Definition complex_permeability_at (d : dimensions F) (z : complex F) (f : F)
  : complex F :=
  csub (of_real (mu_real_at d z f))
       (cmul imag_unit (of_real (mu_imag_at d z f))).
End Elementwise.

(** ** The example: synthetic measurement data

    [example_usage] builds a synthetic impedance curve from a frequency
    array, runs the calculator on it and prints a table of five selected
    points.  Its numeric part is embedded here; the printing and the
    plotting ([plot_permeability]) are not.  The decimal literals of the
    function are kept in a class of their own, beside [Scalar]. *)

Class ExampleLiterals (F : Type) : Type := {
  lit_1e_6 : F;     (* [1e-6] *)
  lit_1e7 : F;      (* [1e7] *)
  lit_1e6 : F;      (* [1e6] *)
  lit_0_1 : F;      (* [0.1] *)
  lit_20e_3 : F;    (* [20e-3] *)
  lit_10e_3 : F;    (* [10e-3] *)
  lit_5e_3 : F      (* [5e-3] *)
}.

#[export] Instance binary64_literals : ExampleLiterals float := {
  lit_1e_6 := 1e-6%float;
  lit_1e7 := 1e7%float;
  lit_1e6 := 1e6%float;
  lit_0_1 := 0.1%float;
  lit_20e_3 := 20e-3%float;
  lit_10e_3 := 10e-3%float;
  lit_5e_3 := 5e-3%float
}.

#[export] Instance reals_literals : ExampleLiterals R := {
  lit_1e_6 := (/ 1000000)%R;
  lit_1e7 := 10000000%R;
  lit_1e6 := 1000000%R;
  lit_0_1 := (/ 10)%R;
  lit_20e_3 := (20 / 1000)%R;
  lit_10e_3 := (10 / 1000)%R;
  lit_5e_3 := (5 / 1000)%R
}.

Section Example.
Context {F : Type} `{Scalar F} `{ExampleLiterals F}.
Local Open Scope scalar_scope.

Definition cadd (a b : complex F) : complex F :=
  Complex (re a +. re b) (im a +. im b).

(** The [sample_dimensions] of the example. *)
Definition example_dimensions : dimensions F :=
  Dimensions lit_20e_3 lit_10e_3 lit_5e_3 10.

Definition base_inductance : F := lit_1e_6.

Definition mu_initial : Z := 1000.

(** Lines 148 to 154: the impedance [R + 1j * omega * L] of the model.
    NumPy computes the power [** 2] of an array as its square. *)
Definition synthetic_impedance (frequency : list F) : result (list (complex F)) :=
  let omega := map (fun f => two_pi *. f) frequency in
  let scaled := map (fun f => f /. lit_1e7) frequency in
  let squared := map (fun x => x *. x) scaled in
  let mu_freq := map (fun x => of_int mu_initial /. (of_int 1 +. x)) squared in
  let L := map (fun m => base_inductance *. m /. of_int mu_initial) mu_freq in
  R <- broadcast2 fmul (map (fun w => lit_0_1 *. w) omega) L ;;
  reactive <-
    broadcast2 cmul (map (fun w => cmul imag_unit (of_real w)) omega)
               (map of_real L) ;;
  broadcast2 cadd (map of_real R) reactive.

(** Lines 148 to 169: the model and the call of the calculator on it. *)
Definition example_results (frequency : list F)
  : result (list (complex F) * list F * list F) :=
  impedance <- synthetic_impedance frequency ;;
  calculate_permeability impedance frequency example_dimensions.

(** The inductance of the model at one frequency, as lines 149 and 152
    compute it. *)
Definition model_inductance (f : F) : F :=
  base_inductance
  *. (of_int mu_initial /. (of_int 1 +. (f /. lit_1e7) *. (f /. lit_1e7)))
  /. of_int mu_initial.

(** The impedance of the model at one frequency, as lines 153 and 154
    compute it. *)
Definition model_impedance (f : F) : complex F :=
  cadd (of_real (lit_0_1 *. (two_pi *. f) *. model_inductance f))
       (cmul (cmul imag_unit (of_real (two_pi *. f)))
             (of_real (model_inductance f))).
End Example.

(** Python indexing of a sequence by an int: a negative index counts
    from the end; [None] stands for [IndexError]. *)
Definition py_getitem {A : Type} (l : list A) (idx : Z) : option A :=
  let n := Z.of_nat (length l) in
  if ((0 <=? idx) && (idx <? n))%Z then nth_error l (Z.to_nat idx)
  else if ((- n <=? idx) && (idx <? 0))%Z then nth_error l (Z.to_nat (n + idx))
  else None.

(** Line 177: the indices of the five rows of the table, for a frequency
    array of length [n]. *)
Definition selected_indices (n : Z) : list Z :=
  [0; n / 4; n / 2; 3 * n / 4; -1]%Z.

Fixpoint collect {A B : Type} (f : A -> option B) (l : list A) : option (list B) :=
  match l with
  | [] => Some []
  | a :: l' =>
      match f a with
      | Some b =>
          match collect f l' with
          | Some bs => Some (b :: bs)
          | None => None
          end
      | None => None
      end
  end.

(** Lines 177 to 182: the values read for the table, row by row:
    frequency in MHz, [mu_real], [mu_imag] and the complex permeability
    (of which the function prints the modulus). *)
Definition table_rows {F : Type} `{Scalar F} `{ExampleLiterals F}
    (frequency : list F) (complex_mu : list (complex F)) (mu_real mu_imag : list F)
  : option (list (F * F * F * complex F)) :=
  collect
    (fun idx =>
       match py_getitem frequency idx, py_getitem mu_real idx,
             py_getitem mu_imag idx, py_getitem complex_mu idx with
       | Some f, Some r, Some m, Some c => Some (fdiv f lit_1e6, r, m, c)
       | _, _, _, _ => None
       end)
    (selected_indices (Z.of_nat (length frequency))).

(** The row of the table read at position [p] of the four arrays. *)
Definition row_at {F : Type} `{Scalar F} `{ExampleLiterals F}
    (frequency : list F) (complex_mu : list (complex F)) (mu_real mu_imag : list F)
    (p : nat) : option (F * F * F * complex F) :=
  match nth_error frequency p, nth_error mu_real p,
        nth_error mu_imag p, nth_error complex_mu p with
  | Some f, Some r, Some m, Some c => Some (fdiv f lit_1e6, r, m, c)
  | _, _, _, _ => None
  end.

(** [np.linspace(start, stop, num)] and [np.logspace(start, stop, num)] in
    exact arithmetic: [num] points [start + i * step] with
    [step = (stop - start) / (num - 1)], the last one set to [stop], and
    10 to the power of each. *)
Definition linspace (start stop : R) (num : nat) : list R :=
  match num with
  | O => []
  | S O => [start]
  | S n =>
      map (fun i => (INR i * ((stop - start) / INR n) + start)%R) (List.seq 0 n)
      ++ [stop]
  end.

Definition logspace (start stop : R) (num : nat) : list R :=
  map (Rpower 10) (linspace start stop num).

(** Line 132. *)
Definition example_frequency : list R := logspace 4 8 100.

(** * Properties *)

(** ** Lists *)

Lemma length_zip_with {A B C : Type} (f : A -> B -> C) (xs : list A) (ys : list B) :
  length (zip_with f xs ys) = Nat.min (length xs) (length ys).
Proof.
  revert ys; induction xs as [|x xs IH]; intros [|y ys]; simpl; auto.
Qed.

Lemma nth_error_zip_with {A B C : Type} (f : A -> B -> C) (xs : list A) (ys : list B) (n : nat) :
  nth_error (zip_with f xs ys) n =
  match nth_error xs n, nth_error ys n with
  | Some x, Some y => Some (f x y)
  | _, _ => None
  end.
Proof.
  revert ys n; induction xs as [|x xs IH]; intros [|y ys] [|n]; simpl; auto.
  - destruct (nth_error xs n); reflexivity.
Qed.

Lemma broadcast2_same_length {A B C : Type} (f : A -> B -> C) (xs : list A) (ys : list B) :
  length xs = length ys -> broadcast2 f xs ys = Ok (zip_with f xs ys).
Proof.
  intros E. unfold broadcast2. rewrite E, Nat.eqb_refl. reflexivity.
Qed.

(** A shape [(1,)] is stretched to the other operand. *)
Lemma broadcast2_stretch_left {A B C : Type} (f : A -> B -> C) (x : A) (ys : list B) :
  broadcast2 f [x] ys = Ok (map (f x) ys).
Proof. destruct ys as [|y [|y' ys]]; reflexivity. Qed.

Lemma broadcast2_stretch_right {A B C : Type} (f : A -> B -> C) (xs : list A) (y : B) :
  broadcast2 f xs [y] = Ok (map (fun x => f x y) xs).
Proof. destruct xs as [|x [|x' xs]]; reflexivity. Qed.

Ltac list_lengths :=
  repeat (rewrite ?length_map, ?length_zip_with); lia.

(** ** The array program computes the per-index formulas *)

Section ElementwiseProperties.
Context {F : Type} `{Scalar F}.

Lemma calculate_permeability_elementwise
    (zs : list (complex F)) (fs : list F) (d : dimensions F) :
  length zs = length fs ->
  int_fits (turns d ^ 2) = true ->
  calculate_permeability zs fs d =
  Ok (zip_with (complex_permeability_at d) zs fs,
      zip_with (mu_real_at d) zs fs,
      zip_with (mu_imag_at d) zs fs).
Proof.
  intros E Hfit.
  unfold calculate_permeability, np_where, int_to_float.
  rewrite Hfit.
  repeat (rewrite broadcast2_same_length by list_lengths; cbn [bind]).
  f_equal. f_equal; [f_equal|]; apply nth_error_ext; intros n;
    repeat (rewrite ?nth_error_zip_with, ?nth_error_map);
    destruct (nth_error zs n) as [z|], (nth_error fs n) as [f|]; reflexivity.
Qed.

(** What a call returns at an index of its inputs. *)
Lemma returned_elementwise
    (zs : list (complex F)) (fs : list F) (d : dimensions F)
    (i : nat) (z : complex F) (f : F) :
  length zs = length fs ->
  int_fits (turns d ^ 2) = true ->
  nth_error zs i = Some z ->
  nth_error fs i = Some f ->
  returned_complex (calculate_permeability zs fs d) i
    = Some (complex_permeability_at d z f)
  /\ returned_mu_real (calculate_permeability zs fs d) i
    = Some (mu_real_at d z f)
  /\ returned_mu_imag (calculate_permeability zs fs d) i
    = Some (mu_imag_at d z f).
Proof.
  intros E Hfit Hz Hf.
  rewrite (calculate_permeability_elementwise zs fs d E Hfit).
  cbn [returned_complex returned_mu_real returned_mu_imag].
  rewrite !nth_error_zip_with, Hz, Hf. auto.
Qed.

Lemma calculate_permeability_lengths
    (zs : list (complex F)) (fs : list F) (d : dimensions F)
    (c : list (complex F)) (r m : list F) :
  length zs = length fs ->
  calculate_permeability zs fs d = Ok (c, r, m) ->
  length c = length zs /\ length r = length zs /\ length m = length zs.
Proof.
  intros E Hrun.
  destruct (int_fits (turns d ^ 2)) eqn:Hfit.
  - rewrite (calculate_permeability_elementwise zs fs d E Hfit) in Hrun.
    inversion Hrun; subst; clear Hrun.
    rewrite !length_zip_with. lia.
  - exfalso. revert Hrun.
    unfold calculate_permeability, np_where, int_to_float.
    rewrite Hfit.
    repeat (rewrite broadcast2_same_length by list_lengths; cbn [bind]).
    discriminate.
Qed.
End ElementwiseProperties.

(** ** Facts of binary64 arithmetic *)

Module Binary64Facts.
Local Open Scope float_scope.

(** What the tests [is_nan], [is_infinity] and [=? 0] say about the
    IEEE datum behind a float. *)
Lemma classify_tests (x : float) :
  match Prim2SF x with
  | S754_nan => is_nan x = true /\ is_infinity x = false /\ (x =? 0) = false
  | S754_zero _ => is_nan x = false /\ is_infinity x = false /\ (x =? 0) = true
  | S754_infinity _ => is_nan x = false /\ is_infinity x = true /\ (x =? 0) = false
  | S754_finite _ _ _ => is_nan x = false /\ is_infinity x = false /\ (x =? 0) = false
  end.
Proof.
  unfold is_nan, is_infinity.
  rewrite !eqb_spec, abs_spec.
  change (Prim2SF 0) with (S754_zero false).
  change (Prim2SF infinity) with (S754_infinity false).
  destruct (Prim2SF x) as [s|s| |s m e]; cbn.
  - auto.
  - destruct s; auto.
  - auto.
  - unfold SFeqb; cbn. rewrite Z.compare_refl, Pos.compare_refl.
    destruct s; auto.
Qed.

Ltac float_cases x :=
  let H := fresh "C" in
  pose proof (classify_tests x) as H;
  destruct (Prim2SF x) as [?|?| |? ? ?];
  destruct H as (? & ? & ?);
  try congruence.

Lemma is_finite_tests (x : float) :
  is_finite x = true <-> is_nan x = false /\ is_infinity x = false.
Proof.
  unfold is_finite. rewrite negb_true_iff, orb_false_iff. reflexivity.
Qed.

(** [0 * y == 0] for finite [y] (and NaN otherwise). *)
Lemma mul_zero_l (x y : float) :
  (x =? 0) = true -> is_finite y = true -> (x * y =? 0) = true.
Proof.
  intros Hx Hy. apply is_finite_tests in Hy. destruct Hy as [Hn Hi].
  pose proof (classify_tests (x * y)) as P. rewrite mul_spec in P.
  float_cases x; float_cases y; cbn in P; apply P.
Qed.

Lemma mul_zero_r (x y : float) :
  is_finite x = true -> (y =? 0) = true -> (x * y =? 0) = true.
Proof.
  intros Hx Hy. apply is_finite_tests in Hx. destruct Hx as [Hn Hi].
  pose proof (classify_tests (x * y)) as P. rewrite mul_spec in P.
  float_cases x; float_cases y; cbn in P; apply P.
Qed.

(** [0 / y == 0] unless [y] is zero or NaN. *)
Lemma div_zero_l (x y : float) :
  (x =? 0) = true -> is_nan y = false -> (y =? 0) = false ->
  (x / y =? 0) = true.
Proof.
  intros Hx Hn Hz.
  pose proof (classify_tests (x / y)) as P. rewrite div_spec in P.
  float_cases x; float_cases y; cbn in P; apply P.
Qed.

(** [x * 0] is NaN when [x] is infinite or NaN. *)
Lemma mul_not_finite_zero (x : float) :
  is_finite x = false -> is_nan (x * 0) = true.
Proof.
  intros Hx. unfold is_finite in Hx. apply negb_false_iff in Hx.
  pose proof (classify_tests (x * 0)) as P. rewrite mul_spec in P.
  change (Prim2SF 0) with (S754_zero false) in P.
  float_cases x; cbn in P; try apply P;
    match goal with
    | N : is_nan x = false, I : is_infinity x = false |- _ =>
        rewrite N, I in Hx; discriminate
    end.
Qed.

(** [0 * y / d] is 0 when [y] is finite and [d] is neither 0 nor NaN,
    and NaN in every other case. *)
Lemma zero_quotient (y d : float) :
  (is_finite y && negb (is_nan d) && negb (d =? 0) = true ->
   (0 * y / d =? 0) = true)
  /\ (is_finite y && negb (is_nan d) && negb (d =? 0) = false ->
      is_nan (0 * y / d) = true).
Proof.
  split.
  - intros Hc. apply andb_prop in Hc. destruct Hc as [Hc Hz].
    apply andb_prop in Hc. destruct Hc as [Hy Hn].
    apply negb_true_iff in Hn. apply negb_true_iff in Hz.
    apply div_zero_l; [|exact Hn|exact Hz].
    apply mul_zero_l; [reflexivity | exact Hy].
  - unfold is_finite. intros Hc.
    pose proof (classify_tests (0 * y / d)) as P.
    rewrite div_spec, mul_spec in P.
    change (Prim2SF 0) with (S754_zero false) in P.
    pose proof (classify_tests y) as Py. pose proof (classify_tests d) as Pd.
    destruct (Prim2SF y) as [?|?| |? ? ?]; destruct Py as (Py1 & Py2 & Py3);
      destruct (Prim2SF d) as [?|?| |? ? ?]; destruct Pd as (Pd1 & Pd2 & Pd3);
      rewrite Py1, Py2, Pd1, Pd3 in Hc; cbn in Hc; try discriminate;
      cbn in P; apply P.
Qed.

Lemma nan_times_zero (x : float) : is_nan x = true -> is_nan (x * 0) = true.
Proof.
  intros Hx. apply mul_not_finite_zero. unfold is_finite. rewrite Hx.
  reflexivity.
Qed.

Lemma two_pi_is_finite : is_finite (two_pi (F := float)) = true.
Proof. vm_compute. reflexivity. Qed.

(** A zero frequency gives a zero angular frequency. *)
Lemma omega_zero (f : float) :
  (f =? 0) = true -> nonzero (omega_at f) = false.
Proof.
  intros Hf. cbn [nonzero binary64]. apply negb_false_iff.
  apply mul_zero_r; [exact two_pi_is_finite | exact Hf].
Qed.
End Binary64Facts.

(** * The claims of the specification *)

Import Examples.

(** ** Shape of the outputs *)

(** C7. For N impedance samples and N frequency samples (N >= 0) every
    call that returns gives three sequences of length exactly N, empty
    ones for N = 0; and the call does return whenever [turns ** 2] is an
    int that converts to a float (always so in exact arithmetic, and for
    [|turns| < 1.3e154] in binary64). *)
Theorem C7_output_lengths
    (F : Type) (S : Scalar F)
    (N : nat) (zs : list (complex F)) (fs : list F) (d : dimensions F) :
  length zs = N ->
  length fs = N ->
  (int_fits (turns d ^ 2) = true ->
   exists c r m, calculate_permeability zs fs d = Ok (c, r, m))
  /\ (forall c r m,
        calculate_permeability zs fs d = Ok (c, r, m) ->
        length c = N /\ length r = N /\ length m = N)
  /\ (N = 0%nat ->
      forall c r m,
        calculate_permeability zs fs d = Ok (c, r, m) ->
        c = [] /\ r = [] /\ m = []).
Proof.
  intros Hz Hf.
  assert (E : length zs = length fs) by congruence.
  split; [|split].
  - intros Hfit. do 3 eexists.
    apply calculate_permeability_elementwise; assumption.
  - intros c r m Hrun. rewrite <- Hz.
    exact (calculate_permeability_lengths zs fs d c r m E Hrun).
  - intros HN c r m Hrun.
    destruct (calculate_permeability_lengths zs fs d c r m E Hrun) as (Hc & Hr & Hm).
    rewrite Hz, HN in Hc, Hr, Hm.
    repeat split; apply length_zero_iff_nil; assumption.
Qed.

Lemma C7_output_lengths_witness :
  (int_fits (F := float) (turns toroid ^ 2) = true ->
   exists c r m,
     calculate_permeability scenario_impedance scenario_frequency toroid
     = Ok (c, r, m))
  /\ (forall c r m,
        calculate_permeability scenario_impedance scenario_frequency toroid
        = Ok (c, r, m) ->
        length c = 1%nat /\ length r = 1%nat /\ length m = 1%nat)
  /\ (1%nat = 0%nat ->
      forall c r m,
        calculate_permeability scenario_impedance scenario_frequency toroid
        = Ok (c, r, m) ->
        c = [] /\ r = [] /\ m = []).
Proof.
  exact (C7_output_lengths float binary64 1 scenario_impedance
           scenario_frequency toroid eq_refl eq_refl).
Defined.

(** ** The real part *)

Section RealPart.
Local Open Scope float_scope.

(** C1, amended.  At every index with [omega_i = 2*pi*frequency[i] != 0]
    the returned [mu_real[i]] is
    [(Imag(impedance[i]) / omega_i * mean_length)
     / (mu_0 * turns^2 * cross_section_area)],
    evaluated in this order, with
    [mean_length = pi * ((outer_diameter + inner_diameter) / 2)],
    [cross_section_area = height * (outer_diameter - inner_diameter) / 2]
    and [mu_0 = 4 * pi * 1e-7].  At an index with [omega_i = 0] the
    inductance term is 0 and [mu_real[i]] is [0 * mean_length / divisor],
    which is 0 when [mean_length] is finite and the divisor
    [mu_0 * turns^2 * cross_section_area] is neither 0 nor NaN, and NaN
    otherwise. *)
Theorem C1_mu_real_formula
    (zs : list (complex float)) (fs : list float) (d : dimensions float)
    (i : nat) (z : complex float) (f : float) :
  length zs = length fs ->
  int_fits (F := float) (turns d ^ 2) = true ->
  nth_error zs i = Some z ->
  nth_error fs i = Some f ->
  let omega := 2 * np_pi * f in
  let mean_length := np_pi * ((outer_diameter d + inner_diameter d) / 2) in
  let cross_section_area := height d * (outer_diameter d - inner_diameter d) / 2 in
  let mu_0 := 4 * np_pi * 1e-7 in
  let divisor := mu_0 * of_int (turns d ^ 2) * cross_section_area in
  let defined := is_finite mean_length && negb (is_nan divisor) && nonzero divisor in
  let mu_real_i := returned_mu_real (calculate_permeability zs fs d) i in
  (nonzero omega = true ->
   mu_real_i = Some (im z / omega * mean_length / divisor))
  /\ (nonzero omega = false ->
      mu_real_i = Some (0 * mean_length / divisor)
      /\ (defined = true -> (0 * mean_length / divisor =? 0) = true)
      /\ (defined = false -> is_nan (0 * mean_length / divisor) = true)).
Proof.
  intros E Hfit Hz Hf omega ml area mu0 divisor defined mu_real_i.
  assert (Hr : mu_real_i = Some (mu_real_at d z f))
    by apply (returned_elementwise zs fs d i z f E Hfit Hz Hf).
  unfold mu_real_at, inductance_at in Hr.
  change (omega_at f) with omega in Hr.
  change (mean_length d) with ml in Hr.
  change (divisor_of d) with divisor in Hr.
  change (of_int 0) with 0 in Hr.
  change fmul with PrimFloat.mul in Hr.
  change fdiv with PrimFloat.div in Hr.
  split.
  - intros Hnz. rewrite Hnz in Hr. exact Hr.
  - intros Hnz. rewrite Hnz in Hr.
    split; [exact Hr|].
    exact (Binary64Facts.zero_quotient ml divisor).
Qed.

Lemma C1_mu_real_formula_witness :
  let z := Complex 0 (2 * 0x1.921fb54442d18p+1 * 1e6 * 1e-6) in
  let f := 1e6 in
  let d := toroid in
  let omega := 2 * np_pi * f in
  let mean_length := np_pi * ((outer_diameter d + inner_diameter d) / 2) in
  let cross_section_area := height d * (outer_diameter d - inner_diameter d) / 2 in
  let mu_0 := 4 * np_pi * 1e-7 in
  let divisor := mu_0 * of_int (turns d ^ 2) * cross_section_area in
  let defined := is_finite mean_length && negb (is_nan divisor) && nonzero divisor in
  let mu_real_i :=
    returned_mu_real
      (calculate_permeability scenario_impedance scenario_frequency d) 0 in
  (nonzero omega = true ->
   mu_real_i = Some (im z / omega * mean_length / divisor))
  /\ (nonzero omega = false ->
      mu_real_i = Some (0 * mean_length / divisor)
      /\ (defined = true -> (0 * mean_length / divisor =? 0) = true)
      /\ (defined = false -> is_nan (0 * mean_length / divisor) = true)).
Proof.
  exact (C1_mu_real_formula scenario_impedance scenario_frequency toroid 0
           _ _ eq_refl eq_refl eq_refl eq_refl).
Defined.

(** C1, as stated, fails: at frequency 0 the returned [mu_real] is NaN,
    not 0, for a toroid without cross section (the quotient is 0/0),
    and also for a toroid within the SampleGeometry invariant whose
    mean length overflows (the product is 0 * infinity). *)
Lemma C1_zero_omega_counterexample :
  (nonzero (2 * np_pi * 0) = false
   /\ returned_mu_real
        (calculate_permeability [Complex 50 10] [0] flat_toroid) 0
      = Some nan
   /\ (nan =? 0) = false)
  /\ (sample_geometry huge_toroid = true
      /\ returned_mu_real
           (calculate_permeability [Complex 50 10] [0] huge_toroid) 0
         = Some nan).
Proof. vm_compute. auto. Qed.
End RealPart.

(** ** The scenario of the specification *)

Section Scenario.
Local Open Scope float_scope.

(** C2, as stated, fails: for the toroid of 20 mm by 10 mm by 5 mm with
    10 turns, at 1 MHz and with the reactance of 1 uH, the returned
    [mu_real[0]] is about 15, two orders of magnitude below the 1499.7
    expected. *)
Lemma C2_scenario_counterexample :
  exists x,
    returned_mu_real
      (calculate_permeability scenario_impedance scenario_frequency toroid) 0
    = Some x
    /\ (x <? 16) = true
    /\ (abs (x - 1499.7) <? 1484) = false.
Proof. eexists. vm_compute. auto. Qed.

(** C2, amended: on that input the call returns [mu_real[0]] =
    14.999999999999996 (15 up to rounding, since
    [1e-6 * pi * 0.015 / (4e-7 * pi * 100 * 2.5e-5) = 15]),
    [mu_imag[0] = 0] and [complex_permeability[0]] = 14.999999999999996 +
    0j. *)
Theorem C2_scenario :
  calculate_permeability scenario_impedance scenario_frequency toroid
  = Ok ([Complex 14.999999999999996 0], [14.999999999999996], [0])
  /\ (abs (14.999999999999996 - 15) <? 1e-14) = true.
Proof. vm_compute. auto. Qed.
End Scenario.

(** ** Zero frequency *)

Section ZeroFrequency.
Local Open Scope float_scope.

(** C3, as stated, fails: at frequency 0 both [mu_real] and [mu_imag] are
    NaN for a toroid without cross section, and for toroids within the
    SampleGeometry invariant whose mean length overflows or whose cross
    section underflows. *)
Lemma C3_zero_frequency_counterexample :
  let flat := calculate_permeability [Complex 50 10; Complex 50 10] [0; 1e6] flat_toroid in
  let huge := calculate_permeability [Complex 50 10] [0] huge_toroid in
  let thin := calculate_permeability [Complex 50 10] [0] thin_toroid in
  (returned_mu_real flat 0 = Some nan /\ returned_mu_imag flat 0 = Some nan)
  /\ (sample_geometry huge_toroid = true
      /\ returned_mu_real huge 0 = Some nan /\ returned_mu_imag huge 0 = Some nan)
  /\ (sample_geometry thin_toroid = true
      /\ returned_mu_real thin 0 = Some nan /\ returned_mu_imag thin 0 = Some nan)
  /\ (nan =? 0) = false.
Proof. vm_compute. repeat split. Qed.

(** C3, amended: at every index with [frequency[i] == 0], whatever the
    impedance there, [mu_real[i] == 0] and [mu_imag[i] == 0] when the
    mean length of the toroid is finite and the divisor
    [mu_0 * turns^2 * cross_section_area] is neither 0 nor NaN; for every
    other geometry both are NaN. *)
Theorem C3_zero_frequency
    (zs : list (complex float)) (fs : list float) (d : dimensions float)
    (i : nat) (z : complex float) (f : float) :
  length zs = length fs ->
  int_fits (F := float) (turns d ^ 2) = true ->
  nth_error zs i = Some z ->
  nth_error fs i = Some f ->
  (f =? 0) = true ->
  let divisor := mu_0 * of_int (turns d ^ 2) * cross_section_area d in
  let defined :=
    is_finite (mean_length d) && negb (is_nan divisor) && nonzero divisor in
  exists x y,
    returned_mu_real (calculate_permeability zs fs d) i = Some x
    /\ returned_mu_imag (calculate_permeability zs fs d) i = Some y
    /\ (defined = true -> (x =? 0) = true /\ (y =? 0) = true)
    /\ (defined = false -> is_nan x = true /\ is_nan y = true).
Proof.
  intros E Hfit Hz Hf Hzero divisor defined.
  destruct (returned_elementwise zs fs d i z f E Hfit Hz Hf) as (_ & Hr & Hm).
  exists (mu_real_at d z f), (mu_imag_at d z f).
  assert (Hx : mu_real_at d z f = 0 * mean_length d / divisor).
  { unfold mu_real_at, inductance_at.
    rewrite (Binary64Facts.omega_zero f Hzero). reflexivity. }
  assert (Hy : mu_imag_at d z f = mu_real_at d z f * 0).
  { unfold mu_imag_at, loss_factor_at, inductance_at.
    rewrite (Binary64Facts.omega_zero f Hzero).
    assert (Hden : nonzero (omega_at f * of_int 0) = false).
    { apply negb_false_iff. apply Binary64Facts.mul_zero_l; [|reflexivity].
      apply negb_false_iff. exact (Binary64Facts.omega_zero f Hzero). }
    change (nonzero (omega_at f *. of_int 0)%sc)
      with (nonzero (omega_at f * of_int 0)).
    rewrite Hden. reflexivity. }
  destruct (Binary64Facts.zero_quotient (mean_length d) divisor) as [Hgood Hbad].
  split; [exact Hr|]. split; [exact Hm|]. rewrite Hy, Hx. split.
  - intros Hdef. split; [exact (Hgood Hdef)|].
    apply Binary64Facts.mul_zero_l; [exact (Hgood Hdef) | reflexivity].
  - intros Hdef. split; [exact (Hbad Hdef)|].
    apply Binary64Facts.nan_times_zero. exact (Hbad Hdef).
Qed.

Lemma C3_zero_frequency_witness :
  let d := toroid in
  let run :=
    calculate_permeability [Complex 50 10; Complex 50 10] [0; 1e6] d in
  let divisor := mu_0 * of_int (turns d ^ 2) * cross_section_area d in
  let defined :=
    is_finite (mean_length d) && negb (is_nan divisor) && nonzero divisor in
  exists x y,
    returned_mu_real run 0 = Some x
    /\ returned_mu_imag run 0 = Some y
    /\ (defined = true -> (x =? 0) = true /\ (y =? 0) = true)
    /\ (defined = false -> is_nan x = true /\ is_nan y = true).
Proof.
  exact (C3_zero_frequency [Complex 50 10; Complex 50 10] [0; 1e6] toroid 0
           _ _ eq_refl eq_refl eq_refl eq_refl eq_refl).
Defined.
End ZeroFrequency.

(** ** The sign convention *)

(** C4. At every index the returned [complex_permeability[i]] is
    [mu_real[i] - 1j * mu_imag[i]], computed from the returned [mu_real]
    and [mu_imag] by these very operations, and the returned [mu_imag[i]]
    is the plain product [mu_real[i] * loss_factor[i]]: the minus sign is
    in the complex combination only.  This holds in both arithmetics. *)
Theorem C4_sign_convention
    (F : Type) (S : Scalar F)
    (zs : list (complex F)) (fs : list F) (d : dimensions F)
    (i : nat) (z : complex F) (f : F) :
  length zs = length fs ->
  int_fits (turns d ^ 2) = true ->
  nth_error zs i = Some z ->
  nth_error fs i = Some f ->
  let omega := (two_pi *. f)%sc in
  let inductance := if nonzero omega then (im z /. omega)%sc else of_int 0 in
  let denominator := (omega *. inductance)%sc in
  let loss_factor :=
    if nonzero denominator then (re z /. denominator)%sc else of_int 0 in
  exists mu_real_i mu_imag_i,
    returned_mu_real (calculate_permeability zs fs d) i = Some mu_real_i
    /\ returned_mu_imag (calculate_permeability zs fs d) i = Some mu_imag_i
    /\ returned_complex (calculate_permeability zs fs d) i
       = Some (csub (of_real mu_real_i) (cmul imag_unit (of_real mu_imag_i)))
    /\ mu_imag_i = (mu_real_i *. loss_factor)%sc.
Proof.
  intros E Hfit Hz Hf omega inductance denominator loss_factor.
  destruct (returned_elementwise zs fs d i z f E Hfit Hz Hf) as (Hc & Hr & Hm).
  exists (mu_real_at d z f), (mu_imag_at d z f).
  repeat split; assumption.
Qed.

Lemma C4_sign_convention_witness :
  let z := Complex 0%float (2 * 0x1.921fb54442d18p+1 * 1e6 * 1e-6)%float in
  let omega := (two_pi *. 1e6%float)%sc in
  let inductance := if nonzero omega then (im z /. omega)%sc else of_int 0 in
  let denominator := (omega *. inductance)%sc in
  let loss_factor :=
    if nonzero denominator then (re z /. denominator)%sc else of_int 0 in
  exists mu_real_i mu_imag_i,
    returned_mu_real
      (calculate_permeability scenario_impedance scenario_frequency toroid) 0
    = Some mu_real_i
    /\ returned_mu_imag
         (calculate_permeability scenario_impedance scenario_frequency toroid) 0
       = Some mu_imag_i
    /\ returned_complex
         (calculate_permeability scenario_impedance scenario_frequency toroid) 0
       = Some (csub (of_real mu_real_i) (cmul imag_unit (of_real mu_imag_i)))
    /\ mu_imag_i = (mu_real_i *. loss_factor)%sc.
Proof.
  exact (C4_sign_convention float binary64 scenario_impedance
           scenario_frequency toroid 0 _ _ eq_refl eq_refl eq_refl eq_refl).
Defined.

(** ** The loss factor *)

Section LossFactor.
Local Open Scope float_scope.

(** C5, as stated, fails: [omega * inductance] is 0 and yet [mu_imag] is
    NaN, not 0, when [mu_real] is not finite: for a toroid without cross
    section at a non-zero frequency and no reactance ([mu_real] is 0/0),
    and at frequency 0 for a toroid within the SampleGeometry invariant
    whose cross section underflows. *)
Lemma C5_loss_factor_counterexample :
  let omega := 2 * np_pi * 1e6 in
  let inductance := if nonzero omega then 0 / omega else 0 in
  (nonzero (omega * inductance) = false
   /\ returned_mu_imag
        (calculate_permeability [Complex 50 0] [1e6] flat_toroid) 0
      = Some nan
   /\ (nan =? 0) = false)
  /\ (sample_geometry thin_toroid = true
      /\ nonzero (2 * np_pi * 0 * 0) = false
      /\ returned_mu_imag
           (calculate_permeability [Complex 50 10] [0] thin_toroid) 0
         = Some nan).
Proof. vm_compute. repeat split. Qed.

(** C5, amended: with [inductance_i] the masked quotient of step 3,
    [loss_factor_i] is [Real(impedance[i]) / (omega_i * inductance_i)]
    when that denominator is not 0 and 0 otherwise, each guard evaluated
    at the index itself, and [mu_imag[i] = mu_real[i] * loss_factor_i];
    so when [omega_i * inductance_i == 0], [mu_imag[i]] is
    [mu_real[i] * 0], which is 0 exactly when [mu_real[i]] is finite. *)
Theorem C5_loss_factor
    (zs : list (complex float)) (fs : list float) (d : dimensions float)
    (i : nat) (z : complex float) (f : float) :
  length zs = length fs ->
  int_fits (F := float) (turns d ^ 2) = true ->
  nth_error zs i = Some z ->
  nth_error fs i = Some f ->
  let omega := 2 * np_pi * f in
  let inductance := if nonzero omega then im z / omega else 0 in
  exists mu_real_i,
    returned_mu_real (calculate_permeability zs fs d) i = Some mu_real_i
    /\ (nonzero (omega * inductance) = true ->
        returned_mu_imag (calculate_permeability zs fs d) i
        = Some (mu_real_i * (re z / (omega * inductance))))
    /\ (nonzero (omega * inductance) = false ->
        returned_mu_imag (calculate_permeability zs fs d) i
        = Some (mu_real_i * 0)
        /\ (is_finite mu_real_i = true -> (mu_real_i * 0 =? 0) = true)
        /\ (is_finite mu_real_i = false -> is_nan (mu_real_i * 0) = true)).
Proof.
  intros E Hfit Hz Hf omega inductance.
  destruct (returned_elementwise zs fs d i z f E Hfit Hz Hf) as (_ & Hr & Hm).
  exists (mu_real_at d z f).
  split; [exact Hr|].
  unfold mu_imag_at, loss_factor_at in Hm.
  change (inductance_at z f) with inductance in Hm.
  change (omega_at f) with omega in Hm.
  change (nonzero (omega *. inductance)%sc) with (nonzero (omega * inductance)) in Hm.
  split; intros Hnz; rewrite Hnz in Hm.
  - exact Hm.
  - split; [exact Hm|]. split.
    + intros Hfin. apply Binary64Facts.mul_zero_r; [exact Hfin | reflexivity].
    + intros Hfin. apply Binary64Facts.mul_not_finite_zero. exact Hfin.
Qed.

Lemma C5_loss_factor_witness :
  let z := Complex 50%float 10%float in
  let f := 1e6%float in
  let omega := (2 * np_pi * f)%float in
  let inductance := if nonzero omega then (im z / omega)%float else 0%float in
  let run := calculate_permeability [z] [f] toroid in
  exists mu_real_i,
    returned_mu_real run 0 = Some mu_real_i
    /\ (nonzero (omega * inductance)%float = true ->
        returned_mu_imag run 0
        = Some (mu_real_i * (re z / (omega * inductance)))%float)
    /\ (nonzero (omega * inductance)%float = false ->
        returned_mu_imag run 0 = Some (mu_real_i * 0)%float
        /\ (is_finite mu_real_i = true -> (mu_real_i * 0 =? 0)%float = true)
        /\ (is_finite mu_real_i = false -> is_nan (mu_real_i * 0)%float = true)).
Proof.
  exact (C5_loss_factor [Complex 50%float 10%float] [1e6%float] toroid 0
           _ _ eq_refl eq_refl eq_refl eq_refl).
Defined.
End LossFactor.

(** ** Exact arithmetic *)

Section ExactArithmetic.
Local Open Scope R_scope.


Lemma nonzero_exact_false (x : R) : nonzero x = false <-> x = 0.
Proof.
  cbn [nonzero reals]. destruct (Req_dec_T x 0); split; intros; congruence.
Qed.

Ltac exact_arith :=
  change (@fmul R reals) with Rmult in *;
  change (@fdiv R reals) with Rdiv in *;
  change (@fadd R reals) with Rplus in *;
  change (@fsub R reals) with Rminus in *;
  change (@of_int R reals) with IZR in *;
  change (@np_pi R reals) with PI in *;
  idtac.

Lemma int_fits_exact (n : Z) : @int_fits R reals n = true.
Proof. reflexivity. Qed.

Lemma omega_exact (f : R) : omega_at f = 2 * PI * f.
Proof. reflexivity. Qed.

Lemma omega_exact_nonzero (f : R) : f <> 0 -> omega_at f <> 0.
Proof.
  intros Hf. rewrite omega_exact.
  apply Rmult_integral_contrapositive_currified; [|exact Hf].
  apply Rmult_integral_contrapositive_currified; [lra | exact PI_neq0].
Qed.

Lemma inductance_exact (z : complex R) (f : R) :
  f <> 0 -> inductance_at z f = im z / omega_at f.
Proof.
  intros Hf. unfold inductance_at.
  destruct (nonzero (omega_at f)) eqn:Hnz; [reflexivity|].
  apply nonzero_exact_false in Hnz.
  destruct (omega_exact_nonzero f Hf Hnz).
Qed.

Lemma denominator_exact (z : complex R) (f : R) :
  f <> 0 -> (omega_at f *. inductance_at z f)%sc = im z.
Proof.
  intros Hf. rewrite (inductance_exact z f Hf). exact_arith.
  field. exact (omega_exact_nonzero f Hf).
Qed.

Lemma loss_factor_exact (z : complex R) (f : R) :
  f <> 0 -> im z <> 0 -> loss_factor_at z f = re z / im z.
Proof.
  intros Hf Hx. unfold loss_factor_at. rewrite (denominator_exact z f Hf).
  destruct (nonzero (im z)) eqn:Hnz; [reflexivity|].
  apply nonzero_exact_false in Hnz. contradiction.
Qed.


Lemma mu_real_exact (d : dimensions R) (z : complex R) (f : R) :
  f <> 0 ->
  mu_real_at d z f = im z / (2 * PI * f) * mean_length d / divisor_of d.
Proof.
  intros Hf. unfold mu_real_at. rewrite (inductance_exact z f Hf). reflexivity.
Qed.








End ExactArithmetic.

(** ** Where binary64 departs from exact arithmetic *)

Section Rounding.
Local Open Scope float_scope.



End Rounding.

(** ** Determinism and absence of side effects *)

Section InMemoryProperties.
Context {F : Type} `{Scalar F}.

Lemma lookup_new (h : heap F) (a : ndarray F) :
  nth_error (h ++ [a]) (length h) = Some a.
Proof.
  rewrite nth_error_app2 by lia. rewrite Nat.sub_diag. reflexivity.
Qed.

Lemma lookup_old (h : heap F) (a v : ndarray F) (p : nat) :
  nth_error h p = Some v -> nth_error (h ++ [a]) p = Some v.
Proof.
  intros Hp. rewrite nth_error_app1; [exact Hp|].
  apply nth_error_Some. congruence.
Qed.

Lemma complex_view_owned (h : heap F) (p : nat) (zs : list (complex F)) :
  nth_error h p = Some (Complex128 zs) -> complex_view h p = Some zs.
Proof. intros Hp. unfold complex_view. rewrite Hp. reflexivity. Qed.

Lemma complex_view_old (h : heap F) (a : ndarray F) (p : nat)
    (zs : list (complex F)) :
  complex_view h p = Some zs -> complex_view (h ++ [a]) p = Some zs.
Proof.
  unfold complex_view. destruct (nth_error h p) as [v|] eqn:Hp; [|discriminate].
  rewrite (lookup_old h a v p Hp). auto.
Qed.

Lemma bool_view_owned (h : heap F) (p : nat) (bs : list bool) :
  nth_error h p = Some (Boolean bs) -> bool_view h p = Some bs.
Proof. intros Hp. unfold bool_view. rewrite Hp. reflexivity. Qed.

Lemma float_view_owned (h : heap F) (p : nat) (xs : list F) :
  nth_error h p = Some (Float64 xs) -> float_view h p = Some xs.
Proof. intros Hp. unfold float_view. rewrite Hp. reflexivity. Qed.

Lemma float_view_imag (h : heap F) (p b : nat) (zs : list (complex F)) :
  nth_error h p = Some (ImagPartOf b) ->
  complex_view h b = Some zs ->
  float_view h p = Some (map im zs).
Proof. intros Hp Hb. unfold float_view. rewrite Hp, Hb. reflexivity. Qed.

Lemma float_view_real (h : heap F) (p b : nat) (zs : list (complex F)) :
  nth_error h p = Some (RealPartOf b) ->
  complex_view h b = Some zs ->
  float_view h p = Some (map re zs).
Proof. intros Hp Hb. unfold float_view. rewrite Hp, Hb. reflexivity. Qed.

(** Allocation changes no view. *)
Lemma float_view_old (h : heap F) (a : ndarray F) (p : nat) (xs : list F) :
  float_view h p = Some xs -> float_view (h ++ [a]) p = Some xs.
Proof.
  unfold float_view. destruct (nth_error h p) as [v|] eqn:Hp; [|discriminate].
  rewrite (lookup_old h a v p Hp).
  destruct v as [ys|zs|bs|b|b]; auto;
    destruct (complex_view h b) as [zs|] eqn:Hb; try discriminate;
    rewrite (complex_view_old h a b zs Hb); auto.
Qed.

Lemma seq_run {A B : Type} (m : action F A) (k : A -> action F B)
    (h h1 : heap F) (a : A) :
  m h = Ok (a, h1) -> seq m k h = k a h1.
Proof. intros Hm. unfold seq. rewrite Hm. reflexivity. Qed.

Lemma read_run {A : Type} (view : heap F -> nat -> option A) (h : heap F)
    (p : nat) (a : A) :
  view h p = Some a -> read view p h = Ok (a, h).
Proof. intros Hp. unfold read. rewrite Hp. reflexivity. Qed.

Lemma np_map_run (g : F -> F) (h : heap F) (p : nat) (xs : list F) :
  float_view h p = Some xs ->
  np_map g p h = Ok (length h, h ++ [Float64 (map g xs)]).
Proof.
  intros Hp. unfold np_map.
  rewrite (seq_run _ _ _ _ _ (read_run float_view h p xs Hp)). reflexivity.
Qed.

Lemma np_zip_run (g : F -> F -> F) (h : heap F) (p q : nat) (xs ys : list F) :
  float_view h p = Some xs ->
  float_view h q = Some ys ->
  length xs = length ys ->
  np_zip g p q h = Ok (length h, h ++ [Float64 (zip_with g xs ys)]).
Proof.
  intros Hp Hq E. unfold np_zip.
  rewrite (seq_run _ _ _ _ _ (read_run float_view h p xs Hp)).
  rewrite (seq_run _ _ _ _ _ (read_run float_view h q ys Hq)).
  unfold seq, lift. rewrite (broadcast2_same_length g xs ys E). reflexivity.
Qed.

Lemma np_imag_run (h : heap F) (p : nat) (zs : list (complex F)) :
  complex_view h p = Some zs ->
  np_imag p h = Ok (length h, h ++ [ImagPartOf p]).
Proof.
  intros Hp. unfold np_imag.
  rewrite (seq_run _ _ _ _ _ (read_run complex_view h p zs Hp)). reflexivity.
Qed.

Lemma np_real_run (h : heap F) (p : nat) (zs : list (complex F)) :
  complex_view h p = Some zs ->
  np_real p h = Ok (length h, h ++ [RealPartOf p]).
Proof.
  intros Hp. unfold np_real.
  rewrite (seq_run _ _ _ _ _ (read_run complex_view h p zs Hp)). reflexivity.
Qed.

Lemma np_not_equal_zero_run (h : heap F) (p : nat) (xs : list F) :
  float_view h p = Some xs ->
  np_not_equal_zero p h = Ok (length h, h ++ [Boolean (map nonzero xs)]).
Proof.
  intros Hp. unfold np_not_equal_zero.
  rewrite (seq_run _ _ _ _ _ (read_run float_view h p xs Hp)). reflexivity.
Qed.

Lemma np_where_at_run (h : heap F) (c p : nat) (bs : list bool) (xs : list F) (y : F) :
  bool_view h c = Some bs ->
  float_view h p = Some xs ->
  length bs = length xs ->
  np_where_at c p y h
  = Ok (length h,
        h ++ [Float64 (zip_with (fun (b : bool) (v : F) => if b then v else y) bs xs)]).
Proof.
  intros Hc Hp E. unfold np_where_at.
  rewrite (seq_run _ _ _ _ _ (read_run bool_view h c bs Hc)).
  rewrite (seq_run _ _ _ _ _ (read_run float_view h p xs Hp)).
  unfold seq, lift, np_where. rewrite (broadcast2_same_length _ bs xs E).
  reflexivity.
Qed.

Lemma np_times_1j_run (h : heap F) (p : nat) (xs : list F) :
  float_view h p = Some xs ->
  np_times_1j p h
  = Ok (length h,
        h ++ [Complex128 (map (fun m => cmul imag_unit (of_real m)) xs)]).
Proof.
  intros Hp. unfold np_times_1j.
  rewrite (seq_run _ _ _ _ _ (read_run float_view h p xs Hp)). reflexivity.
Qed.

Lemma np_subtract_complex_run (h : heap F) (p q : nat) (xs : list F)
    (zs : list (complex F)) :
  float_view h p = Some xs ->
  complex_view h q = Some zs ->
  length xs = length zs ->
  np_subtract_complex p q h
  = Ok (length h, h ++ [Complex128 (zip_with csub (map of_real xs) zs)]).
Proof.
  intros Hp Hq E. unfold np_subtract_complex.
  rewrite (seq_run _ _ _ _ _ (read_run float_view h p xs Hp)).
  rewrite (seq_run _ _ _ _ _ (read_run complex_view h q zs Hq)).
  unfold seq, lift.
  rewrite (broadcast2_same_length csub (map of_real xs) zs)
    by (rewrite length_map; exact E).
  reflexivity.
Qed.

Ltac lookup :=
  repeat first [ apply lookup_new | apply lookup_old ]; eassumption.

Ltac complex_lookup :=
  repeat first
    [ apply complex_view_owned; apply lookup_new
    | apply complex_view_old ];
  try (apply complex_view_owned; eassumption).

Ltac view_lookup :=
  lazymatch goal with
  | |- bool_view _ _ = _ => apply bool_view_owned; lookup
  | |- complex_view _ _ = _ => complex_lookup
  | |- float_view _ _ = _ =>
      repeat first
        [ apply float_view_owned; apply lookup_new
        | eapply float_view_imag; [apply lookup_new | complex_lookup]
        | eapply float_view_real; [apply lookup_new | complex_lookup]
        | apply float_view_old ];
      try (apply float_view_owned; eassumption)
  end.

Ltac run_with lemma :=
  erewrite seq_run by (eapply lemma; first [ view_lookup | list_lengths ]);
  cbv beta.

(** One call on a heap that holds the two inputs: it returns, the
    arrays it returns hold what [calculate_permeability] computes from
    the contents of the inputs, they are new objects that own their
    data, and every object of the heap is as it was. *)
Lemma calculate_permeability_in_memory_run
    (h : heap F) (pz pf : nat) (zs : list (complex F)) (fs : list F)
    (d : dimensions F) :
  nth_error h pz = Some (Complex128 zs) ->
  nth_error h pf = Some (Float64 fs) ->
  length zs = length fs ->
  int_fits (turns d ^ 2) = true ->
  exists c r m p h',
    calculate_permeability zs fs d = Ok (c, r, m)
    /\ calculate_permeability_in_memory pz pf d h = Ok (p, h')
    /\ read_outputs h' p = (Some (Complex128 c), Some (Float64 r), Some (Float64 m))
    /\ (forall q a, nth_error h q = Some a -> nth_error h' q = Some a)
    /\ (length h <= fst (fst p) /\ length h <= snd (fst p) /\ length h <= snd p).
Proof.
  intros Hz Hf E Hfit.
  do 5 eexists.
  split; [|split; [|split; [|split]]].
  2:{ unfold calculate_permeability_in_memory, int_to_float. rewrite Hfit.
      run_with np_map_run.
      run_with np_not_equal_zero_run.
      run_with np_imag_run.
      run_with np_zip_run.
      run_with np_where_at_run.
      run_with np_map_run.
      erewrite seq_run by reflexivity; cbv beta.
      run_with np_map_run.
      run_with np_real_run.
      run_with np_zip_run.
      run_with np_not_equal_zero_run.
      run_with np_zip_run.
      run_with np_where_at_run.
      run_with np_zip_run.
      run_with np_times_1j_run.
      run_with np_subtract_complex_run.
      reflexivity. }
  - unfold calculate_permeability, np_where, int_to_float.
    rewrite Hfit.
    repeat (rewrite broadcast2_same_length by list_lengths; cbn [bind]).
    reflexivity.
  - cbn [read_outputs].
    apply f_equal2; [apply f_equal2|]; lookup.
  - intros q a Hq. repeat apply lookup_old. exact Hq.
  - cbn [fst snd]. repeat rewrite length_app. cbn [length]. lia.
Qed.
End InMemoryProperties.

(** C9. Two calls in a row on the same input arrays, in either
    arithmetic: both return; the arrays they return hold the same
    contents, those that [calculate_permeability] computes from the
    contents of the inputs alone, whatever else the heap holds; and after
    both calls every object that existed before the first, the two inputs
    among them, holds what it held, as do the outputs of the first call
    after the second. *)
Theorem C9_deterministic_without_side_effects
    (F : Type) (S : Scalar F)
    (h : heap F) (pz pf : nat) (zs : list (complex F)) (fs : list F)
    (d : dimensions F) :
  nth_error h pz = Some (Complex128 zs) ->
  nth_error h pf = Some (Float64 fs) ->
  length zs = length fs ->
  int_fits (turns d ^ 2) = true ->
  exists c r m p1 h1 p2 h2,
    calculate_permeability zs fs d = Ok (c, r, m)
    /\ calculate_permeability_in_memory pz pf d h = Ok (p1, h1)
    /\ calculate_permeability_in_memory pz pf d h1 = Ok (p2, h2)
    /\ read_outputs h1 p1 = (Some (Complex128 c), Some (Float64 r), Some (Float64 m))
    /\ read_outputs h2 p2 = (Some (Complex128 c), Some (Float64 r), Some (Float64 m))
    /\ read_outputs h2 p1 = (Some (Complex128 c), Some (Float64 r), Some (Float64 m))
    /\ (forall q a,
          nth_error h q = Some a ->
          nth_error h1 q = Some a /\ nth_error h2 q = Some a)
    /\ nth_error h2 pz = Some (Complex128 zs)
    /\ nth_error h2 pf = Some (Float64 fs).
Proof.
  intros Hz Hf E Hfit.
  destruct (calculate_permeability_in_memory_run h pz pf zs fs d Hz Hf E Hfit)
    as (c & r & m & p1 & h1 & Hpure & Hrun1 & Hout1 & Hframe1 & _).
  destruct (calculate_permeability_in_memory_run h1 pz pf zs fs d
              (Hframe1 _ _ Hz) (Hframe1 _ _ Hf) E Hfit)
    as (c' & r' & m' & p2 & h2 & Hpure' & Hrun2 & Hout2 & Hframe2 & _).
  rewrite Hpure in Hpure'. inversion Hpure'; subst c' r' m'; clear Hpure'.
  exists c, r, m, p1, h1, p2, h2.
  repeat split; try assumption.
  - destruct p1 as [[pc pr] pm]. cbn [read_outputs] in Hout1. cbn [read_outputs].
    inversion Hout1 as [[Hc Hr Hm]].
    rewrite (Hframe2 _ _ Hc), (Hframe2 _ _ Hr), (Hframe2 _ _ Hm), Hc, Hr, Hm.
    reflexivity.
  - apply Hframe1. assumption.
  - apply Hframe2, Hframe1. assumption.
  - apply Hframe2, Hframe1. exact Hz.
  - apply Hframe2, Hframe1. exact Hf.
Qed.

Lemma C9_deterministic_without_side_effects_witness :
  let h := [Complex128 scenario_impedance; Float64 scenario_frequency] in
  exists c r m p1 h1 p2 h2,
    calculate_permeability scenario_impedance scenario_frequency toroid
    = Ok (c, r, m)
    /\ calculate_permeability_in_memory 0 1 toroid h = Ok (p1, h1)
    /\ calculate_permeability_in_memory 0 1 toroid h1 = Ok (p2, h2)
    /\ read_outputs h1 p1 = (Some (Complex128 c), Some (Float64 r), Some (Float64 m))
    /\ read_outputs h2 p2 = (Some (Complex128 c), Some (Float64 r), Some (Float64 m))
    /\ read_outputs h2 p1 = (Some (Complex128 c), Some (Float64 r), Some (Float64 m))
    /\ (forall q a,
          nth_error h q = Some a ->
          nth_error h1 q = Some a /\ nth_error h2 q = Some a)
    /\ nth_error h2 0 = Some (Complex128 scenario_impedance)
    /\ nth_error h2 1 = Some (Float64 scenario_frequency).
Proof.
  exact (C9_deterministic_without_side_effects float binary64
           [Complex128 scenario_impedance; Float64 scenario_frequency] 0 1
           scenario_impedance scenario_frequency toroid
           eq_refl eq_refl eq_refl eq_refl).
Defined.

(** ** Further properties of the function *)

(** The array program refines the element-by-element algorithm: for
    inputs of equal length (and [turns ** 2] convertible to a float) the
    call returns, at every index, what steps 2 to 9 of the algorithm
    compute from the impedance and the frequency at that index.  Both
    arithmetics. *)
Theorem X1_elementwise_refinement
    (F : Type) (S : Scalar F)
    (zs : list (complex F)) (fs : list F) (d : dimensions F) :
  length zs = length fs ->
  int_fits (turns d ^ 2) = true ->
  calculate_permeability zs fs d =
  Ok (zip_with (complex_permeability_at d) zs fs,
      zip_with (mu_real_at d) zs fs,
      zip_with (mu_imag_at d) zs fs).
Proof. exact (calculate_permeability_elementwise zs fs d). Qed.

Lemma X1_elementwise_refinement_witness :
  calculate_permeability scenario_impedance scenario_frequency toroid =
  Ok (zip_with (complex_permeability_at toroid) scenario_impedance scenario_frequency,
      zip_with (mu_real_at toroid) scenario_impedance scenario_frequency,
      zip_with (mu_imag_at toroid) scenario_impedance scenario_frequency).
Proof.
  exact (X1_elementwise_refinement float binary64 scenario_impedance
           scenario_frequency toroid eq_refl eq_refl).
Defined.

(** Impedance and frequency arrays of different lengths, neither of
    length 1, make the call raise [ValueError] (at the division of line
    62); nothing is truncated.  Both arithmetics. *)
Theorem X2_shape_mismatch_raises
    (F : Type) (S : Scalar F)
    (zs : list (complex F)) (fs : list F) (d : dimensions F) :
  length zs <> length fs ->
  length zs <> 1%nat ->
  length fs <> 1%nat ->
  calculate_permeability zs fs d = Raise ValueError.
Proof.
  intros E Hz Hf. unfold calculate_permeability.
  assert (Hb : broadcast2 fdiv (map im zs) (map (fun f => (two_pi *. f)%sc) fs)
               = Raise ValueError).
  { unfold broadcast2. rewrite !length_map.
    destruct (Nat.eqb_spec (length zs) (length fs)) as [|_]; [contradiction|].
    destruct zs as [|z [|z' zs]], fs as [|f [|f' fs]];
      cbn in *; congruence. }
  rewrite Hb. reflexivity.
Qed.

Lemma X2_shape_mismatch_raises_witness :
  calculate_permeability
    [Complex 50%float 10%float; Complex 50%float 10%float]
    [1e5%float; 1e6%float; 1e7%float] toroid
  = Raise ValueError.
Proof.
  apply (X2_shape_mismatch_raises float binary64); cbn [length]; lia.
Defined.

(** An int [turns] whose square does not convert to a float makes the
    call raise [OverflowError] (at the product [mu_0 * turns**2] of line
    69), for inputs of equal length. *)
Theorem X3_huge_turns_raise
    (zs : list (complex float)) (fs : list float) (d : dimensions float) :
  length zs = length fs ->
  (2 ^ 1024 - 2 ^ 970 <= turns d ^ 2)%Z ->
  calculate_permeability zs fs d = Raise OverflowError.
Proof.
  intros E Ht.
  unfold calculate_permeability, np_where, int_to_float.
  repeat (rewrite broadcast2_same_length by list_lengths; cbn [bind]).
  assert (Hfit : int_fits (F := float) (turns d ^ 2) = false).
  { cbn [int_fits binary64]. apply Z.ltb_ge.
    rewrite Z.abs_eq by (apply Z.pow_even_nonneg; exists 1%Z; reflexivity).
    exact Ht. }
  rewrite Hfit. reflexivity.
Qed.

Lemma X3_huge_turns_raise_witness :
  calculate_permeability scenario_impedance scenario_frequency
    (Dimensions 20e-3%float 10e-3%float 5e-3%float (10 ^ 200))
  = Raise OverflowError.
Proof.
  apply X3_huge_turns_raise; [reflexivity|].
  cbn [turns]. apply Z.leb_le. vm_compute. reflexivity.
Defined.

Section ExactScenario.
Local Open Scope R_scope.

(** In exact arithmetic [complex_permeability[i]] has real part
    [mu_real[i]] and imaginary part [- mu_imag[i]]. *)
Theorem X4_complex_parts
    (zs : list (complex R)) (fs : list R) (d : dimensions R)
    (i : nat) (z : complex R) (f : R) :
  length zs = length fs ->
  nth_error zs i = Some z ->
  nth_error fs i = Some f ->
  exists mu_real_i mu_imag_i,
    returned_mu_real (calculate_permeability zs fs d) i = Some mu_real_i
    /\ returned_mu_imag (calculate_permeability zs fs d) i = Some mu_imag_i
    /\ returned_complex (calculate_permeability zs fs d) i
       = Some (Complex mu_real_i (- mu_imag_i)).
Proof.
  intros E Hz Hf.
  destruct (returned_elementwise zs fs d i z f E (int_fits_exact _) Hz Hf)
    as (Hc & Hr & Hm).
  exists (mu_real_at d z f), (mu_imag_at d z f).
  repeat split; try assumption.
  rewrite Hc. unfold complex_permeability_at, csub, cmul, of_real, imag_unit.
  cbn [re im].
  change (@fmul R reals) with Rmult; change (@fsub R reals) with Rminus;
    change (@fadd R reals) with Rplus; change (@of_int R reals) with IZR.
  f_equal. f_equal; ring.
Qed.

Lemma X4_complex_parts_witness :
  exists mu_real_i mu_imag_i,
    returned_mu_real
      (calculate_permeability [Complex 5 1] [1] (Dimensions 2 1 1 1)) 0
    = Some mu_real_i
    /\ returned_mu_imag
         (calculate_permeability [Complex 5 1] [1] (Dimensions 2 1 1 1)) 0
       = Some mu_imag_i
    /\ returned_complex
         (calculate_permeability [Complex 5 1] [1] (Dimensions 2 1 1 1)) 0
       = Some (Complex mu_real_i (- mu_imag_i)).
Proof.
  exact (X4_complex_parts [Complex 5 1] [1] (Dimensions 2 1 1 1) 0
           (Complex 5 1) 1 eq_refl eq_refl eq_refl).
Defined.

(** In exact arithmetic the scenario of the specification (20 mm by
    10 mm by 5 mm, 10 turns, 1 MHz, the reactance of 1 uH, no resistance)
    gives [mu_real[0] = 15] and [mu_imag[0] = 0]. *)
Theorem X5_scenario_exact :
  let d := Dimensions (20 / 1000) (10 / 1000) (5 / 1000) 10 in
  let z := Complex 0 (2 * PI * 1000000 * / 1000000) in
  returned_mu_real (calculate_permeability [z] [1000000] d) 0 = Some 15
  /\ returned_mu_imag (calculate_permeability [z] [1000000] d) 0 = Some 0.
Proof.
  intros d z.
  assert (Hf : (1000000 : R) <> 0) by lra.
  assert (Hx : im z <> 0).
  { unfold z; cbn [im]. assert (Hpi := PI_RGT_0). nra. }
  destruct (returned_elementwise [z] [1000000] d 0 z 1000000 eq_refl
              (int_fits_exact _) eq_refl eq_refl) as (_ & Hr & Hm).
  assert (Hreal : mu_real_at d z 1000000 = 15).
  { rewrite (mu_real_exact d z 1000000 Hf).
    unfold divisor_of, mu_0, mean_length, mean_diameter, cross_section_area.
    unfold d, z;
      cbn [im outer_diameter inner_diameter height turns].
    change (10 ^ 2)%Z with 100%Z.
    change (@fmul R reals) with Rmult; change (@fdiv R reals) with Rdiv;
      change (@fsub R reals) with Rminus; change (@fadd R reals) with Rplus;
      change (@of_int R reals) with IZR; change (@np_pi R reals) with PI;
      change (@lit_1e_7 R reals) with (/ 10000000).
    field. exact PI_neq0. }
  split.
  - rewrite Hr, Hreal. reflexivity.
  - rewrite Hm. unfold mu_imag_at.
    rewrite Hreal, (loss_factor_exact z 1000000 Hf Hx).
    f_equal. unfold z; cbn [re im].
    change (@fmul R reals) with Rmult. unfold Rdiv. ring.
Qed.
End ExactScenario.

(** In binary64, for the impedance 50 + 10j at 1 MHz and the toroid of
    the scenario: the returned [mu_imag[0]] is positive and the imaginary
    part of [complex_permeability[0]] is its negation. *)
Theorem X6_sign_example :
  calculate_permeability [Complex 50%float 10%float] [1e6%float] toroid
  = Ok ([Complex 23.873241463784296%float (-119.36620731892148)%float],
        [23.873241463784296%float], [119.36620731892148%float]).
Proof. vm_compute. reflexivity. Qed.

(** A frequency array of length 1 is not a shape mismatch: NumPy
    stretches it, and the call returns one output per impedance sample,
    each computed with that single frequency.  Both arithmetics. *)
Theorem X7_single_frequency_broadcasts
    (F : Type) (S : Scalar F)
    (zs : list (complex F)) (f : F) (d : dimensions F) :
  int_fits (turns d ^ 2) = true ->
  calculate_permeability zs [f] d =
  Ok (map (fun z => complex_permeability_at d z f) zs,
      map (fun z => mu_real_at d z f) zs,
      map (fun z => mu_imag_at d z f) zs).
Proof.
  intros Hfit.
  unfold calculate_permeability, np_where, int_to_float. rewrite Hfit.
  cbn [map].
  rewrite broadcast2_stretch_right; cbn [bind].
  rewrite broadcast2_stretch_left; cbn [bind].
  rewrite broadcast2_stretch_left; cbn [bind].
  repeat (rewrite broadcast2_same_length by list_lengths; cbn [bind]).
  f_equal. f_equal; [f_equal|]; apply nth_error_ext; intros n;
    repeat (rewrite ?nth_error_zip_with, ?nth_error_map);
    destruct (nth_error zs n) as [w|]; reflexivity.
Qed.

Lemma X7_single_frequency_broadcasts_witness :
  calculate_permeability
    [Complex 50%float 10%float; Complex 5%float 1%float] [1e6%float] toroid
  = Ok (map (fun z => complex_permeability_at toroid z 1e6%float)
          [Complex 50%float 10%float; Complex 5%float 1%float],
        map (fun z => mu_real_at toroid z 1e6%float)
          [Complex 50%float 10%float; Complex 5%float 1%float],
        map (fun z => mu_imag_at toroid z 1e6%float)
          [Complex 50%float 10%float; Complex 5%float 1%float]).
Proof.
  exact (X7_single_frequency_broadcasts float binary64
           [Complex 50%float 10%float; Complex 5%float 1%float] 1e6%float
           toroid eq_refl).
Defined.

(** ** Batches, broadcasting and the sign of [turns] *)

Lemma zip_with_app {A B C : Type} (f : A -> B -> C)
    (xs1 xs2 : list A) (ys1 ys2 : list B) :
  length xs1 = length ys1 ->
  zip_with f (xs1 ++ xs2) (ys1 ++ ys2)
  = zip_with f xs1 ys1 ++ zip_with f xs2 ys2.
Proof.
  revert ys1. induction xs1 as [|x xs1 IH]; intros [|y ys1] E;
    try discriminate; cbn [app zip_with].
  - reflexivity.
  - f_equal. apply IH. injection E as E. exact E.
Qed.

(** Measurements can be processed in batches: the call on two
    concatenated measurement series returns the concatenation of what the
    calls on each series return.  Both arithmetics. *)
Theorem X8_batches_concatenate
    (F : Type) (S : Scalar F)
    (zs1 zs2 : list (complex F)) (fs1 fs2 : list F) (d : dimensions F) :
  length zs1 = length fs1 ->
  length zs2 = length fs2 ->
  int_fits (turns d ^ 2) = true ->
  exists c1 r1 m1 c2 r2 m2,
    calculate_permeability zs1 fs1 d = Ok (c1, r1, m1)
    /\ calculate_permeability zs2 fs2 d = Ok (c2, r2, m2)
    /\ calculate_permeability (zs1 ++ zs2) (fs1 ++ fs2) d
       = Ok (c1 ++ c2, r1 ++ r2, m1 ++ m2).
Proof.
  intros E1 E2 Hfit.
  assert (E : length (zs1 ++ zs2) = length (fs1 ++ fs2))
    by (rewrite !length_app; congruence).
  do 6 eexists.
  rewrite (calculate_permeability_elementwise zs1 fs1 d E1 Hfit).
  rewrite (calculate_permeability_elementwise zs2 fs2 d E2 Hfit).
  rewrite (calculate_permeability_elementwise _ _ d E Hfit).
  rewrite !(zip_with_app _ zs1 zs2 fs1 fs2 E1).
  repeat split.
Qed.

Lemma X8_batches_concatenate_witness :
  exists c1 r1 m1 c2 r2 m2,
    calculate_permeability [Complex 50%float 10%float] [1e5%float] toroid
    = Ok (c1, r1, m1)
    /\ calculate_permeability [Complex 5%float 1%float] [1e6%float] toroid
       = Ok (c2, r2, m2)
    /\ calculate_permeability
         ([Complex 50%float 10%float] ++ [Complex 5%float 1%float])
         ([1e5%float] ++ [1e6%float]) toroid
       = Ok (c1 ++ c2, r1 ++ r2, m1 ++ m2).
Proof.
  exact (X8_batches_concatenate float binary64
           [Complex 50%float 10%float] [Complex 5%float 1%float]
           [1e5%float] [1e6%float] toroid eq_refl eq_refl eq_refl).
Defined.

(** An impedance array of length 1 is stretched over the frequencies:
    the call returns one output per frequency, each computed from that
    single impedance.  Both arithmetics. *)
Theorem X9_single_impedance_broadcasts
    (F : Type) (S : Scalar F)
    (z : complex F) (fs : list F) (d : dimensions F) :
  int_fits (turns d ^ 2) = true ->
  calculate_permeability [z] fs d =
  Ok (map (fun f => complex_permeability_at d z f) fs,
      map (fun f => mu_real_at d z f) fs,
      map (fun f => mu_imag_at d z f) fs).
Proof.
  intros Hfit.
  unfold calculate_permeability, np_where, int_to_float. rewrite Hfit.
  cbn [map].
  rewrite broadcast2_stretch_left; cbn [bind].
  rewrite (broadcast2_same_length _ (map nonzero _)) by list_lengths;
    cbn [bind].
  rewrite (broadcast2_same_length fmul) by list_lengths; cbn [bind].
  rewrite broadcast2_stretch_left; cbn [bind].
  repeat (rewrite broadcast2_same_length by list_lengths; cbn [bind]).
  f_equal. f_equal; [f_equal|]; apply nth_error_ext; intros n;
    repeat (rewrite ?nth_error_zip_with, ?nth_error_map);
    destruct (nth_error fs n) as [w|]; reflexivity.
Qed.

Lemma X9_single_impedance_broadcasts_witness :
  calculate_permeability [Complex 50%float 10%float]
    [1e5%float; 1e6%float; 1e7%float] toroid
  = Ok (map (fun f => complex_permeability_at toroid (Complex 50%float 10%float) f)
          [1e5%float; 1e6%float; 1e7%float],
        map (fun f => mu_real_at toroid (Complex 50%float 10%float) f)
          [1e5%float; 1e6%float; 1e7%float],
        map (fun f => mu_imag_at toroid (Complex 50%float 10%float) f)
          [1e5%float; 1e6%float; 1e7%float]).
Proof.
  exact (X9_single_impedance_broadcasts float binary64
           (Complex 50%float 10%float) [1e5%float; 1e6%float; 1e7%float]
           toroid eq_refl).
Defined.

(** The number of turns is not validated and enters through its square
    only: a negative [turns] gives the results of its absolute value.
    Both arithmetics. *)
Theorem X10_turns_sign_ignored
    (F : Type) (S : Scalar F)
    (zs : list (complex F)) (fs : list F) (outer inner h : F) (n : Z) :
  calculate_permeability zs fs (Dimensions outer inner h (- n))
  = calculate_permeability zs fs (Dimensions outer inner h n).
Proof.
  unfold calculate_permeability. cbn [turns].
  replace ((- n) ^ 2)%Z with (n ^ 2)%Z by ring.
  reflexivity.
Qed.

(** ** NaN frequencies and purely resistive samples *)

Module Binary64Propagation.
Local Open Scope float_scope.

Lemma nan_mul_r (x y : float) : is_nan y = true -> is_nan (x * y) = true.
Proof.
  intros Hy.
  pose proof (Binary64Facts.classify_tests (x * y)) as P.
  rewrite mul_spec in P.
  pose proof (Binary64Facts.classify_tests y) as Py.
  destruct (Prim2SF y) as [?|?| |? ? ?]; destruct Py as (Py1 & _);
    try congruence.
  destruct (Prim2SF x); cbn in P; apply P.
Qed.

Lemma nan_mul_l (x y : float) : is_nan x = true -> is_nan (x * y) = true.
Proof.
  intros Hx.
  pose proof (Binary64Facts.classify_tests (x * y)) as P.
  rewrite mul_spec in P.
  pose proof (Binary64Facts.classify_tests x) as Px.
  destruct (Prim2SF x) as [?|?| |? ? ?]; destruct Px as (Px1 & _);
    try congruence.
  cbn in P; apply P.
Qed.

Lemma nan_div_r (x y : float) : is_nan y = true -> is_nan (x / y) = true.
Proof.
  intros Hy.
  pose proof (Binary64Facts.classify_tests (x / y)) as P.
  rewrite div_spec in P.
  pose proof (Binary64Facts.classify_tests y) as Py.
  destruct (Prim2SF y) as [?|?| |? ? ?]; destruct Py as (Py1 & _);
    try congruence.
  destruct (Prim2SF x); cbn in P; apply P.
Qed.

Lemma nan_div_l (x y : float) : is_nan x = true -> is_nan (x / y) = true.
Proof.
  intros Hx.
  pose proof (Binary64Facts.classify_tests (x / y)) as P.
  rewrite div_spec in P.
  pose proof (Binary64Facts.classify_tests x) as Px.
  destruct (Prim2SF x) as [?|?| |? ? ?]; destruct Px as (Px1 & _);
    try congruence.
  cbn in P; apply P.
Qed.

(** NaN is not equal to 0: the masks let it through. *)
Lemma nan_nonzero (x : float) : is_nan x = true -> nonzero x = true.
Proof.
  intros Hx. cbn [nonzero binary64]. apply negb_true_iff.
  pose proof (Binary64Facts.classify_tests x) as Px.
  destruct (Prim2SF x) as [?|?| |? ? ?]; destruct Px as (Px1 & Px2 & Px3);
    congruence.
Qed.
End Binary64Propagation.

Section EdgeInputs.
Local Open Scope float_scope.

(** A NaN in the frequency array is not masked: at its index both
    [mu_real] and [mu_imag] are NaN, whatever the impedance and the
    geometry. *)
Theorem X11_nan_frequency_propagates
    (zs : list (complex float)) (fs : list float) (d : dimensions float)
    (i : nat) (z : complex float) (f : float) :
  length zs = length fs ->
  int_fits (F := float) (turns d ^ 2) = true ->
  nth_error zs i = Some z ->
  nth_error fs i = Some f ->
  is_nan f = true ->
  exists x y,
    returned_mu_real (calculate_permeability zs fs d) i = Some x
    /\ returned_mu_imag (calculate_permeability zs fs d) i = Some y
    /\ is_nan x = true
    /\ is_nan y = true.
Proof.
  intros E Hfit Hz Hf Hnan.
  destruct (returned_elementwise zs fs d i z f E Hfit Hz Hf) as (_ & Hr & Hm).
  exists (mu_real_at d z f), (mu_imag_at d z f).
  assert (Hw : is_nan (omega_at f) = true)
    by (apply Binary64Propagation.nan_mul_r; exact Hnan).
  assert (Hx : is_nan (mu_real_at d z f) = true).
  { unfold mu_real_at, inductance_at.
    rewrite (Binary64Propagation.nan_nonzero _ Hw).
    apply Binary64Propagation.nan_div_l, Binary64Propagation.nan_mul_l,
      Binary64Propagation.nan_div_r.
    exact Hw. }
  repeat split; try assumption.
  unfold mu_imag_at. apply Binary64Propagation.nan_mul_l. exact Hx.
Qed.

Lemma X11_nan_frequency_propagates_witness :
  exists x y,
    returned_mu_real
      (calculate_permeability [Complex 50 10; Complex 50 10] [nan; 1e6] toroid) 0
    = Some x
    /\ returned_mu_imag
         (calculate_permeability [Complex 50 10; Complex 50 10] [nan; 1e6] toroid) 0
       = Some y
    /\ is_nan x = true
    /\ is_nan y = true.
Proof.
  exact (X11_nan_frequency_propagates [Complex 50 10; Complex 50 10]
           [nan; 1e6] toroid 0 _ _ eq_refl eq_refl eq_refl eq_refl eq_refl).
Defined.

(** A sample without reactance at a finite non-zero angular frequency:
    the inductance is 0, the loss factor is masked, and both [mu_real]
    and [mu_imag] are 0, whatever the resistance, for a geometry whose
    mean length is finite and whose divisor is neither 0 nor NaN.  The
    resistance of such a sample leaves no trace in the output. *)
Theorem X12_no_reactance_no_loss
    (zs : list (complex float)) (fs : list float) (d : dimensions float)
    (i : nat) (z : complex float) (f : float) :
  length zs = length fs ->
  int_fits (F := float) (turns d ^ 2) = true ->
  nth_error zs i = Some z ->
  nth_error fs i = Some f ->
  (im z =? 0) = true ->
  is_finite (2 * np_pi * f) = true ->
  nonzero (2 * np_pi * f) = true ->
  is_finite (mean_length d) = true ->
  is_nan (mu_0 * of_int (turns d ^ 2) * cross_section_area d) = false ->
  nonzero (mu_0 * of_int (turns d ^ 2) * cross_section_area d) = true ->
  exists x y,
    returned_mu_real (calculate_permeability zs fs d) i = Some x
    /\ returned_mu_imag (calculate_permeability zs fs d) i = Some y
    /\ (x =? 0) = true
    /\ (y =? 0) = true.
Proof.
  intros E Hfit Hz Hf Hx0 Hwfin Hwnz Hml Hdn Hdz.
  destruct (returned_elementwise zs fs d i z f E Hfit Hz Hf) as (_ & Hr & Hm).
  exists (mu_real_at d z f), (mu_imag_at d z f).
  change (2 * np_pi * f) with (omega_at f) in Hwfin, Hwnz.
  assert (Hwfin' := Hwfin).
  apply Binary64Facts.is_finite_tests in Hwfin'. destruct Hwfin' as [Hwn _].
  assert (Hl : (inductance_at z f =? 0) = true).
  { unfold inductance_at. rewrite Hwnz.
    apply Binary64Facts.div_zero_l; [exact Hx0 | exact Hwn |].
    apply negb_true_iff. exact Hwnz. }
  assert (Hx : (mu_real_at d z f =? 0) = true).
  { unfold mu_real_at.
    apply Binary64Facts.div_zero_l;
      [| exact Hdn | apply negb_true_iff; exact Hdz].
    apply Binary64Facts.mul_zero_l; [exact Hl | exact Hml]. }
  repeat split; try assumption.
  unfold mu_imag_at, loss_factor_at.
  assert (Hden : nonzero (omega_at f * inductance_at z f) = false).
  { apply negb_false_iff. apply Binary64Facts.mul_zero_r; assumption. }
  change (nonzero (omega_at f *. inductance_at z f)%sc)
    with (nonzero (omega_at f * inductance_at z f)).
  rewrite Hden.
  apply Binary64Facts.mul_zero_l; [exact Hx | reflexivity].
Qed.

Lemma X12_no_reactance_no_loss_witness :
  exists x y,
    returned_mu_real (calculate_permeability [Complex 50 0] [1e6] toroid) 0
    = Some x
    /\ returned_mu_imag (calculate_permeability [Complex 50 0] [1e6] toroid) 0
       = Some y
    /\ (x =? 0) = true
    /\ (y =? 0) = true.
Proof.
  exact (X12_no_reactance_no_loss [Complex 50 0] [1e6] toroid 0 _ _
           eq_refl eq_refl eq_refl eq_refl eq_refl eq_refl eq_refl
           eq_refl eq_refl eq_refl).
Defined.
End EdgeInputs.

(** ** The returned arrays as objects *)

Section ReturnedObjects.
Context {F : Type} `{Scalar F}.

Ltac find_object :=
  repeat first [ apply lookup_new | apply lookup_old ]; eassumption.

Ltac find_complex :=
  repeat first
    [ apply complex_view_owned; apply lookup_new
    | apply complex_view_old ];
  try (apply complex_view_owned; eassumption).

Ltac find_view :=
  lazymatch goal with
  | |- bool_view _ _ = _ => apply bool_view_owned; find_object
  | |- complex_view _ _ = _ => find_complex
  | |- float_view _ _ = _ =>
      repeat first
        [ apply float_view_owned; apply lookup_new
        | eapply float_view_imag; [apply lookup_new | find_complex]
        | eapply float_view_real; [apply lookup_new | find_complex]
        | apply float_view_old ];
      try (apply float_view_owned; eassumption)
  end.

Local Tactic Notation "step_with" uconstr(lemma) :=
  erewrite seq_run by (eapply lemma; first [ find_view | list_lengths ]);
  cbv beta.

(** The addresses a call returns: the call allocates fifteen objects,
    and the outputs are the seventh, the thirteenth and the last. *)
Lemma calculate_permeability_in_memory_addresses
    (h : heap F) (pz pf : nat) (zs : list (complex F)) (fs : list F)
    (d : dimensions F) :
  nth_error h pz = Some (Complex128 zs) ->
  nth_error h pf = Some (Float64 fs) ->
  length zs = length fs ->
  int_fits (turns d ^ 2) = true ->
  exists h',
    calculate_permeability_in_memory pz pf d h
    = Ok ((length h + 14, length h + 6, length h + 12)%nat, h')
    /\ length h' = (length h + 15)%nat.
Proof.
  intros Hz Hf E Hfit.
  eexists. split.
  - unfold calculate_permeability_in_memory, int_to_float. rewrite Hfit.
    step_with np_map_run.
    step_with np_not_equal_zero_run.
    step_with np_imag_run.
    step_with np_zip_run.
    step_with np_where_at_run.
    step_with np_map_run.
    erewrite seq_run by reflexivity; cbv beta.
    step_with np_map_run.
    step_with np_real_run.
    step_with np_zip_run.
    step_with np_not_equal_zero_run.
    step_with np_zip_run.
    step_with np_where_at_run.
    step_with np_zip_run.
    step_with np_times_1j_run.
    step_with np_subtract_complex_run.
    unfold ret. repeat rewrite length_app. cbn [length].
    do 2 f_equal. f_equal; [f_equal|]; lia.
  - repeat rewrite length_app. cbn [length]. lia.
Qed.
End ReturnedObjects.

(** The three arrays a call returns are three different objects, none
    of which existed before the call (so none is one of the inputs, or
    shares memory with them: each owns its data), in either arithmetic.
    Writing into one of them changes neither the inputs nor the other
    two. *)
Theorem X13_outputs_are_new_objects
    (F : Type) (S : Scalar F)
    (h : heap F) (pz pf : nat) (zs : list (complex F)) (fs : list F)
    (d : dimensions F) :
  nth_error h pz = Some (Complex128 zs) ->
  nth_error h pf = Some (Float64 fs) ->
  length zs = length fs ->
  int_fits (turns d ^ 2) = true ->
  exists pc pr pm h' c r m,
    calculate_permeability_in_memory pz pf d h = Ok ((pc, pr, pm), h')
    /\ (pc <> pr /\ pc <> pm /\ pr <> pm)
    /\ (nth_error h pc = None /\ nth_error h pr = None /\ nth_error h pm = None)
    /\ (pc <> pz /\ pc <> pf /\ pr <> pz /\ pr <> pf /\ pm <> pz /\ pm <> pf)
    /\ nth_error h' pc = Some (Complex128 c)
    /\ nth_error h' pr = Some (Float64 r)
    /\ nth_error h' pm = Some (Float64 m).
Proof.
  intros Hz Hf E Hfit.
  destruct (calculate_permeability_in_memory_addresses h pz pf zs fs d
              Hz Hf E Hfit) as (h' & Hrun & _).
  destruct (calculate_permeability_in_memory_run h pz pf zs fs d Hz Hf E Hfit)
    as (c & r & m & p & h'' & _ & Hrun' & Hout & _).
  rewrite Hrun in Hrun'. inversion Hrun'; subst p h''; clear Hrun'.
  cbn [read_outputs] in Hout. inversion Hout as [[Hc Hr Hm]].
  assert (Hpz : pz < length h) by (apply nth_error_Some; congruence).
  assert (Hpf : pf < length h) by (apply nth_error_Some; congruence).
  exists (length h + 14)%nat, (length h + 6)%nat, (length h + 12)%nat, h', c, r, m.
  split; [exact Hrun|].
  split; [repeat split; lia|].
  split; [repeat split; apply nth_error_None; lia|].
  split; [repeat split; lia|].
  repeat split; assumption.
Qed.

Lemma X13_outputs_are_new_objects_witness :
  let h := [Complex128 scenario_impedance; Float64 scenario_frequency] in
  exists pc pr pm h' c r m,
    calculate_permeability_in_memory 0 1 toroid h = Ok ((pc, pr, pm), h')
    /\ (pc <> pr /\ pc <> pm /\ pr <> pm)
    /\ (nth_error h pc = None /\ nth_error h pr = None /\ nth_error h pm = None)
    /\ (pc <> 0%nat /\ pc <> 1%nat /\ pr <> 0%nat /\ pr <> 1%nat
        /\ pm <> 0%nat /\ pm <> 1%nat)
    /\ nth_error h' pc = Some (Complex128 c)
    /\ nth_error h' pr = Some (Float64 r)
    /\ nth_error h' pm = Some (Float64 m).
Proof.
  exact (X13_outputs_are_new_objects float binary64
           [Complex128 scenario_impedance; Float64 scenario_frequency] 0 1
           scenario_impedance scenario_frequency toroid
           eq_refl eq_refl eq_refl eq_refl).
Defined.

(** ** The example *)

Section ExampleProperties.
Context {F : Type} `{Scalar F} `{ExampleLiterals F}.

Lemma synthetic_impedance_elementwise (frequency : list F) :
  synthetic_impedance frequency = Ok (map model_impedance frequency).
Proof.
  unfold synthetic_impedance.
  repeat (rewrite broadcast2_same_length by list_lengths; cbn [bind]).
  f_equal. apply nth_error_ext; intros n.
  repeat (rewrite ?nth_error_zip_with, ?nth_error_map).
  destruct (nth_error frequency n) as [f|]; reflexivity.
Qed.

Lemma example_results_elementwise (frequency : list F) :
  int_fits (10 ^ 2) = true ->
  example_results frequency =
  Ok (map (fun f => complex_permeability_at example_dimensions (model_impedance f) f)
        frequency,
      map (fun f => mu_real_at example_dimensions (model_impedance f) f) frequency,
      map (fun f => mu_imag_at example_dimensions (model_impedance f) f) frequency).
Proof.
  intros Hfit. unfold example_results.
  rewrite synthetic_impedance_elementwise. cbn [bind].
  rewrite calculate_permeability_elementwise;
    [| rewrite length_map; reflexivity | exact Hfit].
  f_equal. f_equal; [f_equal|]; apply nth_error_ext; intros n;
    repeat (rewrite ?nth_error_zip_with, ?nth_error_map);
    destruct (nth_error frequency n) as [f|]; reflexivity.
Qed.
End ExampleProperties.

(** The numeric part of [example_usage] works for every frequency
    array, of any length and with any values: the model never produces a
    shape mismatch, the call of the calculator returns, and the three
    results have the length of the frequency array.  Both arithmetics
    (in which 100, the square of the example's [turns], converts to a
    float). *)
Theorem X14_example_never_raises
    (F : Type) (S : Scalar F) (L : ExampleLiterals F) (frequency : list F) :
  int_fits (10 ^ 2) = true ->
  exists impedance c r m,
    synthetic_impedance frequency = Ok impedance
    /\ length impedance = length frequency
    /\ example_results frequency = Ok (c, r, m)
    /\ length c = length frequency
    /\ length r = length frequency
    /\ length m = length frequency.
Proof.
  intros Hfit.
  exists (map model_impedance frequency).
  do 3 eexists.
  rewrite synthetic_impedance_elementwise.
  rewrite (example_results_elementwise frequency Hfit).
  split; [reflexivity|]. split; [apply length_map|].
  split; [reflexivity|].
  repeat split; apply length_map.
Qed.

Lemma X14_example_never_raises_witness :
  exists impedance c r m,
    synthetic_impedance [0%float; 1e4%float; nan] = Ok impedance
    /\ length impedance = length [0%float; 1e4%float; nan]
    /\ example_results [0%float; 1e4%float; nan] = Ok (c, r, m)
    /\ length c = length [0%float; 1e4%float; nan]
    /\ length r = length [0%float; 1e4%float; nan]
    /\ length m = length [0%float; 1e4%float; nan].
Proof.
  exact (X14_example_never_raises float binary64 binary64_literals
           [0%float; 1e4%float; nan] eq_refl).
Defined.

Section ExampleExact.
Local Open Scope R_scope.

Ltac real_ops :=
  change (@fmul R reals) with Rmult in *;
  change (@fdiv R reals) with Rdiv in *;
  change (@fadd R reals) with Rplus in *;
  change (@fsub R reals) with Rminus in *;
  change (@of_int R reals) with IZR in *;
  change (@np_pi R reals) with PI in *;
  change (@lit_1e_7 R reals) with (/ 10000000) in *;
  change (@lit_1e_6 R reals_literals) with (/ 1000000) in *;
  change (@lit_1e7 R reals_literals) with 10000000 in *;
  change (@lit_0_1 R reals_literals) with (/ 10) in *;
  change (@lit_20e_3 R reals_literals) with (20 / 1000) in *;
  change (@lit_10e_3 R reals_literals) with (10 / 1000) in *;
  change (@lit_5e_3 R reals_literals) with (5 / 1000) in *;
  idtac.

Lemma model_inductance_exact (f : R) :
  model_inductance f = / 1000000 / (1 + (f / 10000000) ^ 2)
  /\ 0 < model_inductance f.
Proof.
  assert (Hd : 0 < 1 + (f / 10000000) ^ 2) by nra.
  assert (E : model_inductance f = / 1000000 / (1 + (f / 10000000) ^ 2)).
  { unfold model_inductance, base_inductance, mu_initial. real_ops.
    field. nra. }
  split; [exact E|]. rewrite E.
  apply Rdiv_lt_0_compat; [lra | exact Hd].
Qed.

Lemma model_impedance_exact (f : R) :
  re (model_impedance f) = / 10 * (2 * PI * f) * model_inductance f
  /\ im (model_impedance f) = 2 * PI * f * model_inductance f.
Proof.
  unfold model_impedance, cadd, cmul, of_real, imag_unit, two_pi; cbn [re im].
  real_ops. split; ring.
Qed.

Lemma example_geometry_exact :
  mean_length (F := R) example_dimensions / divisor_of example_dimensions
  = 15000000.
Proof.
  unfold divisor_of, mu_0, mean_length, mean_diameter, cross_section_area,
    example_dimensions.
  cbn [outer_diameter inner_diameter height turns].
  change (10 ^ 2)%Z with 100%Z. real_ops.
  field. exact PI_neq0.
Qed.

Lemma example_at_frequency
    (frequency : list R) (i : nat) (f : R) :
  nth_error frequency i = Some f ->
  f <> 0 ->
  inductance_at (model_impedance f) f = model_inductance f
  /\ returned_mu_real (example_results frequency) i
     = Some (15 / (1 + (f / 10000000) ^ 2))
  /\ returned_mu_imag (example_results frequency) i
     = Some (15 / (1 + (f / 10000000) ^ 2) / 10).
Proof.
  intros Hf Hf0.
  destruct (model_inductance_exact f) as (HL & HLpos).
  destruct (model_impedance_exact f) as (Hre & Him).
  assert (Hw : 2 * PI * f <> 0) by exact (omega_exact_nonzero f Hf0).
  assert (Hx : im (model_impedance f) <> 0).
  { rewrite Him. apply Rmult_integral_contrapositive_currified; [exact Hw | lra]. }
  assert (Hind : inductance_at (model_impedance f) f = model_inductance f).
  { rewrite (inductance_exact _ f Hf0), Him, omega_exact. field.
    split; [exact Hf0 | exact PI_neq0]. }
  assert (Hreal : mu_real_at example_dimensions (model_impedance f) f
                  = 15 / (1 + (f / 10000000) ^ 2)).
  { unfold mu_real_at. rewrite Hind. real_ops.
    unfold Rdiv at 1. rewrite Rmult_assoc.
    change (mean_length example_dimensions * / divisor_of example_dimensions)
      with (mean_length (F := R) example_dimensions / divisor_of example_dimensions).
    rewrite example_geometry_exact, HL. field. nra. }
  split; [exact Hind|].
  rewrite (example_results_elementwise frequency (int_fits_exact _)).
  cbn [returned_mu_real returned_mu_imag].
  rewrite !nth_error_map, Hf. cbn [option_map].
  split; [rewrite Hreal; reflexivity|].
  f_equal. unfold mu_imag_at.
  rewrite Hreal, (loss_factor_exact _ f Hf0 Hx), Hre, Him. real_ops.
  field. split; [nra|]. split; [lra|]. split; [exact Hf0 | exact PI_neq0].
Qed.

(** What the example computes, in exact arithmetic, at a frequency other
    than 0: the calculator recovers the inductance the model started
    from, [mu_real] is [15 / (1 + (f / 1e7)^2)] (the geometry and the base
    inductance of the example give 15 at low frequency, not the 1000 of
    [mu_initial]), and [mu_imag] is a tenth of [mu_real]. *)
Theorem X15_example_round_trip
    (frequency : list R) (i : nat) (f : R) :
  nth_error frequency i = Some f ->
  f <> 0 ->
  inductance_at (model_impedance f) f = model_inductance f
  /\ returned_mu_real (example_results frequency) i
     = Some (15 / (1 + (f / 10000000) ^ 2))
  /\ returned_mu_imag (example_results frequency) i
     = Some (15 / (1 + (f / 10000000) ^ 2) / 10).
Proof. exact (example_at_frequency frequency i f). Qed.

Lemma X15_example_round_trip_witness :
  inductance_at (model_impedance 10000000) 10000000 = model_inductance 10000000
  /\ returned_mu_real (example_results [10000; 10000000]) 1
     = Some (15 / (1 + (10000000 / 10000000) ^ 2))
  /\ returned_mu_imag (example_results [10000; 10000000]) 1
     = Some (15 / (1 + (10000000 / 10000000) ^ 2) / 10).
Proof.
  apply (X15_example_round_trip [10000; 10000000] 1 10000000);
    [reflexivity | lra].
Defined.
End ExampleExact.

Section ExampleFrequencies.
Local Open Scope R_scope.

Lemma length_linspace (a b : R) (num : nat) : length (linspace a b num) = num.
Proof.
  destruct num as [|[|k]]; cbn [linspace length]; try reflexivity.
  rewrite length_app, length_map, length_seq. cbn [length]. lia.
Qed.

(** With two points or more, point [i] of [linspace] is
    [start + i * step], the last one included. *)
Lemma nth_error_linspace (a b : R) (k i : nat) :
  (i <= S k)%nat ->
  nth_error (linspace a b (S (S k))) i
  = Some (INR i * ((b - a) / INR (S k)) + a).
Proof.
  intros Hi. cbn [linspace].
  assert (Hk : INR (S k) <> 0) by (apply not_0_INR; discriminate).
  destruct (Nat.eq_dec i (S k)) as [->|Hne].
  - rewrite nth_error_app2 by (rewrite length_map, length_seq; lia).
    rewrite length_map, length_seq, Nat.sub_diag. cbn [nth_error].
    f_equal. field. exact Hk.
  - rewrite nth_error_app1 by (rewrite length_map, length_seq; lia).
    rewrite nth_error_map, nth_error_seq.
    destruct (Nat.ltb_spec i (S k)) as [_|Hge]; [|lia].
    reflexivity.
Qed.

Lemma INR_99 : INR 99 = 99.
Proof. rewrite INR_IZR_INZ. reflexivity. Qed.

Lemma nth_error_example_frequency (i : nat) (f : R) :
  nth_error example_frequency i = Some f ->
  (i < 100)%nat /\ f = Rpower 10 (INR i * (4 / 99) + 4).
Proof.
  intros Hf.
  assert (Hi : (i < 100)%nat).
  { assert (Hlt : (i < length example_frequency)%nat)
      by (apply nth_error_Some; congruence).
    unfold example_frequency, logspace in Hlt.
    rewrite length_map, length_linspace in Hlt. exact Hlt. }
  split; [exact Hi|].
  unfold example_frequency, logspace in Hf.
  rewrite nth_error_map, (nth_error_linspace 4 8 98 i) in Hf by lia.
  unfold option_map in Hf. rewrite INR_99 in Hf.
  assert (Hv : Rpower 10 (INR i * ((8 - 4) / 99) + 4) = f) by congruence.
  rewrite <- Hv. f_equal. lra.
Qed.

Lemma example_frequency_facts :
  length example_frequency = 100%nat
  /\ nth_error example_frequency 0 = Some 10000
  /\ nth_error example_frequency 99 = Some 100000000
  /\ (forall i j fi fj,
        nth_error example_frequency i = Some fi ->
        nth_error example_frequency j = Some fj ->
        (i < j)%nat ->
        0 < fi < fj).
Proof.
  assert (Hnth : forall i, (i < 100)%nat ->
            nth_error example_frequency i
            = Some (Rpower 10 (INR i * (4 / 99) + 4))).
  { intros i Hi. unfold example_frequency, logspace.
    rewrite nth_error_map, (nth_error_linspace 4 8 98 i) by lia.
    unfold option_map. do 2 f_equal. rewrite INR_99. lra. }
  split; [|split; [|split]].
  - unfold example_frequency, logspace.
    rewrite length_map. apply length_linspace.
  - rewrite (Hnth 0%nat) by lia. f_equal.
    replace (INR 0 * (4 / 99) + 4) with (INR 4) by (cbn [INR]; lra).
    rewrite Rpower_pow by lra. lra.
  - rewrite (Hnth 99%nat) by lia. f_equal.
    replace (INR 99 * (4 / 99) + 4) with (INR 8).
    + rewrite Rpower_pow by lra. lra.
    + rewrite INR_99, (INR_IZR_INZ 8). change (Z.of_nat 8) with 8%Z. lra.
  - intros i j fi fj Hi Hj Hij.
    destruct (nth_error_example_frequency i fi Hi) as (_ & ->).
    destruct (nth_error_example_frequency j fj Hj) as (_ & ->).
    split; [apply exp_pos|].
    apply Rpower_lt; [lra|].
    apply lt_INR in Hij. nra.
Qed.

(** Line 132: the frequency array of the example has 100 points, starts
    at 10 kHz, ends at 100 MHz and increases strictly, all points being
    positive, so that no frequency of the example is masked. *)
Theorem X16_example_frequencies :
  length example_frequency = 100%nat
  /\ nth_error example_frequency 0 = Some 10000
  /\ nth_error example_frequency 99 = Some 100000000
  /\ (forall i j fi fj,
        nth_error example_frequency i = Some fi ->
        nth_error example_frequency j = Some fj ->
        (i < j)%nat ->
        0 < fi < fj).
Proof. exact example_frequency_facts. Qed.
End ExampleFrequencies.

Section ExampleRun.
Local Open Scope R_scope.

(** The run of the example in exact arithmetic: at each of its 100
    frequencies [mu_real] is [15 / (1 + (f / 1e7)^2)] and [mu_imag] a
    tenth of it (no point is masked); [mu_real] starts just below 15 at
    10 kHz, ends at 15/101 at 100 MHz and decreases strictly in between,
    staying positive. *)
Theorem X17_example_run_rolls_off :
  let run := example_results example_frequency in
  (forall i f,
      nth_error example_frequency i = Some f ->
      returned_mu_real run i = Some (15 / (1 + (f / 10000000) ^ 2))
      /\ returned_mu_imag run i = Some (15 / (1 + (f / 10000000) ^ 2) / 10))
  /\ returned_mu_real run 0 = Some (15 / (1 + / 1000000))
  /\ returned_mu_real run 99 = Some (15 / 101)
  /\ (forall i j x y,
        returned_mu_real run i = Some x ->
        returned_mu_real run j = Some y ->
        (i < j)%nat ->
        0 < y < x).
Proof.
  intros run.
  destruct example_frequency_facts as (Hlen & H0 & H99 & Hmono).
  assert (Hall : forall i f,
             nth_error example_frequency i = Some f ->
             returned_mu_real run i = Some (15 / (1 + (f / 10000000) ^ 2))
             /\ returned_mu_imag run i
                = Some (15 / (1 + (f / 10000000) ^ 2) / 10)).
  { intros i f Hf.
    assert (Hpos : 0 < f).
    { destruct (nth_error_example_frequency i f Hf) as (_ & ->).
      apply exp_pos. }
    apply (example_at_frequency example_frequency i f Hf). lra. }
  split; [exact Hall|].
  split; [|split].
  - rewrite (proj1 (Hall 0%nat _ H0)). f_equal. field.
  - rewrite (proj1 (Hall 99%nat _ H99)). f_equal. field.
  - intros i j x y Hx Hy Hij.
    assert (Hi : exists fi, nth_error example_frequency i = Some fi).
    { destruct (nth_error example_frequency i) as [fi|] eqn:Hfi;
        [exists fi; reflexivity|].
      exfalso. revert Hx. unfold run.
      rewrite (example_results_elementwise _ (int_fits_exact _)).
      cbn [returned_mu_real]. rewrite nth_error_map, Hfi. discriminate. }
    assert (Hj : exists fj, nth_error example_frequency j = Some fj).
    { destruct (nth_error example_frequency j) as [fj|] eqn:Hfj;
        [exists fj; reflexivity|].
      exfalso. revert Hy. unfold run.
      rewrite (example_results_elementwise _ (int_fits_exact _)).
      cbn [returned_mu_real]. rewrite nth_error_map, Hfj. discriminate. }
    destruct Hi as (fi & Hfi). destruct Hj as (fj & Hfj).
    rewrite (proj1 (Hall i fi Hfi)) in Hx.
    rewrite (proj1 (Hall j fj Hfj)) in Hy.
    assert (Ex : 15 / (1 + (fi / 10000000) ^ 2) = x) by congruence.
    assert (Ey : 15 / (1 + (fj / 10000000) ^ 2) = y) by congruence.
    destruct (Hmono i j fi fj Hfi Hfj Hij) as (Hfi0 & Hlt).
    rewrite <- Ex, <- Ey.
    assert (Hsq : (fi / 10000000) ^ 2 < (fj / 10000000) ^ 2) by nra.
    assert (Hdi : 0 < 1 + (fi / 10000000) ^ 2) by nra.
    assert (Hdj : 0 < 1 + (fj / 10000000) ^ 2) by nra.
    split.
    + apply Rdiv_lt_0_compat; lra.
    + unfold Rdiv. apply Rmult_lt_compat_l; [lra|].
      apply Rinv_lt_contravar; [apply Rmult_lt_0_compat; lra | lra].
Qed.
End ExampleRun.

(** ** The table of selected points *)

Lemma py_getitem_position {A : Type} (l : list A) (p : nat) :
  (p < length l)%nat -> py_getitem l (Z.of_nat p) = nth_error l p.
Proof.
  intros Hp. unfold py_getitem.
  destruct (Z.leb_spec 0 (Z.of_nat p)) as [_|Hneg]; [|lia].
  destruct (Z.ltb_spec (Z.of_nat p) (Z.of_nat (length l))) as [_|Hge]; [|lia].
  cbn [andb]. rewrite Nat2Z.id. reflexivity.
Qed.

Lemma py_getitem_last {A : Type} (l : list A) :
  (1 <= length l)%nat -> py_getitem l (-1) = nth_error l (length l - 1).
Proof.
  intros Hl. unfold py_getitem.
  destruct (Z.leb_spec 0 (-1)) as [Hneg|_]; [lia|].
  cbn [andb].
  destruct (Z.leb_spec (- Z.of_nat (length l)) (-1)) as [_|Hlt]; [|lia].
  destruct (Z.ltb_spec (-1) 0) as [_|Hge]; [|lia].
  cbn [andb]. f_equal. lia.
Qed.

Lemma py_getitem_empty {A : Type} (idx : Z) : py_getitem (@nil A) idx = None.
Proof.
  unfold py_getitem. cbn [length Z.of_nat].
  destruct (Z.leb_spec 0 idx), (Z.ltb_spec idx 0); cbn [andb]; try reflexivity;
    try lia.
  - destruct (Z.leb_spec (- 0) idx); cbn [andb]; try reflexivity.
  - destruct (Z.leb_spec (- 0) idx); cbn [andb]; [lia | reflexivity].
Qed.

Lemma selected_indices_positions (n : nat) :
  selected_indices (Z.of_nat n)
  = [Z.of_nat 0; Z.of_nat (n / 4); Z.of_nat (n / 2); Z.of_nat (3 * n / 4); (-1)%Z].
Proof.
  unfold selected_indices.
  rewrite !Nat2Z.inj_div, Nat2Z.inj_mul. reflexivity.
Qed.

Section Table.
Context {F : Type} `{Scalar F} `{ExampleLiterals F}.

Lemma row_at_defined (frequency : list F) (complex_mu : list (complex F))
    (mu_real mu_imag : list F) (p : nat) :
  length complex_mu = length frequency ->
  length mu_real = length frequency ->
  length mu_imag = length frequency ->
  (p < length frequency)%nat ->
  exists row, row_at frequency complex_mu mu_real mu_imag p = Some row.
Proof.
  intros Ec Er Em Hp. unfold row_at.
  destruct (nth_error frequency p) as [f|] eqn:Hf;
    [|apply nth_error_None in Hf; lia].
  destruct (nth_error mu_real p) as [r|] eqn:Hr;
    [|apply nth_error_None in Hr; lia].
  destruct (nth_error mu_imag p) as [m|] eqn:Hm;
    [|apply nth_error_None in Hm; lia].
  destruct (nth_error complex_mu p) as [c|] eqn:Hc;
    [|apply nth_error_None in Hc; lia].
  eexists; reflexivity.
Qed.

Lemma table_rows_positions (frequency : list F) (complex_mu : list (complex F))
    (mu_real mu_imag : list F) :
  length complex_mu = length frequency ->
  length mu_real = length frequency ->
  length mu_imag = length frequency ->
  (1 <= length frequency)%nat ->
  table_rows frequency complex_mu mu_real mu_imag
  = collect (row_at frequency complex_mu mu_real mu_imag)
      [0; length frequency / 4; length frequency / 2;
       3 * length frequency / 4; length frequency - 1]%nat.
Proof.
  intros Ec Er Em Hn. unfold table_rows.
  rewrite selected_indices_positions.
  set (n := length frequency) in *; idtac.
  assert (H4 : (n / 4 < n)%nat) by (apply Nat.div_lt; lia).
  assert (H2 : (n / 2 < n)%nat) by (apply Nat.div_lt; lia).
  assert (H3 : (3 * n / 4 < n)%nat)
    by (apply Nat.Div0.div_lt_upper_bound; lia).
  cbn [collect]. unfold row_at.
  rewrite !py_getitem_position by (fold n; lia).
  rewrite !py_getitem_last by (fold n; lia).
  rewrite Ec, Er, Em. reflexivity.
Qed.
End Table.

(** Line 177 to 182: for result arrays of the length [n >= 1] of the
    frequency array the five rows of the table are read without error,
    at the positions [0], [n // 4], [n // 2], [3 * n // 4] and [n - 1] (the
    index [-1]), which never decrease and repeat when [n < 4]; for empty
    arrays the first row raises [IndexError].  Both arithmetics. *)
Theorem X18_table_rows_in_bounds
    (F : Type) (S : Scalar F) (L : ExampleLiterals F)
    (frequency : list F) (complex_mu : list (complex F))
    (mu_real mu_imag : list F) :
  length complex_mu = length frequency ->
  length mu_real = length frequency ->
  length mu_imag = length frequency ->
  let n := length frequency in
  let row := row_at frequency complex_mu mu_real mu_imag in
  (n = 0%nat -> table_rows frequency complex_mu mu_real mu_imag = None)
  /\ ((1 <= n)%nat ->
      exists r0 r1 r2 r3 r4,
        table_rows frequency complex_mu mu_real mu_imag
        = Some [r0; r1; r2; r3; r4]
        /\ row 0%nat = Some r0
        /\ row (n / 4)%nat = Some r1
        /\ row (n / 2)%nat = Some r2
        /\ row (3 * n / 4)%nat = Some r3
        /\ row (n - 1)%nat = Some r4
        /\ (n / 4 <= n / 2 <= 3 * n / 4)%nat
        /\ (3 * n / 4 <= n - 1)%nat).
Proof.
  intros Ec Er Em n row. split.
  - intros Hn. unfold table_rows. fold n. rewrite Hn.
    cbn [selected_indices Z.of_nat collect].
    apply length_zero_iff_nil in Hn. rewrite Hn.
    rewrite py_getitem_empty. reflexivity.
  - intros Hn.
    assert (H4 : (n / 4 < n)%nat) by (apply Nat.div_lt; lia).
    assert (H2 : (n / 2 < n)%nat) by (apply Nat.div_lt; lia).
    assert (H3 : (3 * n / 4 < n)%nat)
      by (apply Nat.Div0.div_lt_upper_bound; lia).
    destruct (row_at_defined frequency complex_mu mu_real mu_imag 0 Ec Er Em)
      as (r0 & Hr0); [fold n; lia|].
    destruct (row_at_defined frequency complex_mu mu_real mu_imag (n / 4) Ec Er Em)
      as (r1 & Hr1); [fold n; lia|].
    destruct (row_at_defined frequency complex_mu mu_real mu_imag (n / 2) Ec Er Em)
      as (r2 & Hr2); [fold n; lia|].
    destruct (row_at_defined frequency complex_mu mu_real mu_imag (3 * n / 4) Ec Er Em)
      as (r3 & Hr3); [fold n; lia|].
    destruct (row_at_defined frequency complex_mu mu_real mu_imag (n - 1) Ec Er Em)
      as (r4 & Hr4); [fold n; lia|].
    exists r0, r1, r2, r3, r4.
    rewrite (table_rows_positions frequency complex_mu mu_real mu_imag Ec Er Em Hn).
    fold n. cbn [collect]. rewrite Hr0, Hr1, Hr2, Hr3, Hr4.
    assert (Hd4 := Nat.div_mod_eq n 4).
    assert (Hm4 : (n mod 4 < 4)%nat) by (apply Nat.mod_upper_bound; lia).
    assert (Hd2 := Nat.div_mod_eq n 2).
    assert (Hm2 : (n mod 2 < 2)%nat) by (apply Nat.mod_upper_bound; lia).
    assert (Hd3 := Nat.div_mod_eq (3 * n) 4).
    assert (Hm3 : ((3 * n) mod 4 < 4)%nat) by (apply Nat.mod_upper_bound; lia).
    repeat split; try assumption; lia.
Qed.

Lemma X18_table_rows_in_bounds_witness :
  let frequency := [1e4%float; 1e5%float; 1e6%float] in
  let complex_mu :=
    [Complex 15%float (-1.5)%float; Complex 14%float (-1.4)%float;
     Complex 13%float (-1.3)%float] in
  let mu_real := [15%float; 14%float; 13%float] in
  let mu_imag := [1.5%float; 1.4%float; 1.3%float] in
  let n := length frequency in
  let row := row_at frequency complex_mu mu_real mu_imag in
  (n = 0%nat -> table_rows frequency complex_mu mu_real mu_imag = None)
  /\ ((1 <= n)%nat ->
      exists r0 r1 r2 r3 r4,
        table_rows frequency complex_mu mu_real mu_imag
        = Some [r0; r1; r2; r3; r4]
        /\ row 0%nat = Some r0
        /\ row (n / 4)%nat = Some r1
        /\ row (n / 2)%nat = Some r2
        /\ row (3 * n / 4)%nat = Some r3
        /\ row (n - 1)%nat = Some r4
        /\ (n / 4 <= n / 2 <= 3 * n / 4)%nat
        /\ (3 * n / 4 <= n - 1)%nat).
Proof.
  exact (X18_table_rows_in_bounds float binary64 binary64_literals
           [1e4%float; 1e5%float; 1e6%float]
           [Complex 15%float (-1.5)%float; Complex 14%float (-1.4)%float;
            Complex 13%float (-1.3)%float]
           [15%float; 14%float; 13%float] [1.5%float; 1.4%float; 1.3%float]
           eq_refl eq_refl eq_refl).
Defined.
